(** * Footfall counter: line-crossing detection and counting

    A shallow embedding of [footfall_counter.py]: the constructor of
    [FootfallCounter], the computation of the counting line and
    [update_counts], the only method that changes the counter's state;
    then [detect_and_track] from the tracker's answer on, the drawing
    methods as the list of what they draw, and the loop of [main] over the
    frames of a video and the keys pressed. The tracker, OpenCV and the
    video itself are outside the program. *)

From Stdlib Require Import ZArith Floats.SpecFloat String.
From stdpp Require Import gmap list.

Local Open Scope Z_scope.
#[local] Set Warnings "-clear-no-such-hyp".

(** ** Python values used by the counter *)

(** The exceptions the modelled code can raise. *)
Inductive exn : Type :=
  | KeyError (key : string)
  | IndexError
  | OverflowError
  | ValueError.

(** How a call ends: it returns, or an exception leaves it. *)
Inductive outcome : Type :=
  | Returned
  | Raised (e : exn).

(** A Python [float] is an IEEE 754 binary64 number. *)
Definition prec : Z := 53.
Definition emax : Z := 1024.

(** [float(z)] for a Python int: correctly rounded (to nearest, ties to
    even); an int too large for a double raises [OverflowError]. *)
Definition float_of_int (z : Z) : exn + spec_float :=
  match binary_normalize prec emax z 0 false with
  | S754_infinity _ => inl OverflowError
  | f => inr f
  end.

(** [int(f)] for a Python float: truncation toward zero; an infinity
    raises [OverflowError], a NaN raises [ValueError]. *)
Definition int_of_float (f : spec_float) : exn + Z :=
  match f with
  | S754_nan => inl ValueError
  | S754_infinity _ => inl OverflowError
  | S754_zero _ => inr 0
  | S754_finite s m e => inr (cond_Zopp s (Z.shiftl (Zpos m) e))
  end.

(** [l[-k]] for [k >= 1]: the k-th element from the end, or nothing when
    the list is shorter (Python raises [IndexError]). *)
Definition py_index_from_end {A : Type} (l : list A) (k : nat) : option A :=
  if decide (k ≤ length l)%nat then l !! (length l - k)%nat else None.

(** ** Configuration *)

Definition TRACK_HISTORY_LENGTH : nat := 30.

(** [LINE_POSITION = 0.5], the double [2^52 * 2^-53]. *)
Definition LINE_POSITION : spec_float :=
  S754_finite false 4503599627370496 (-53).

(** ** Data *)

(** A centroid is a pair [(x, y)] of ints. *)
Definition position : Type := Z * Z.

(** A detection is a dict; [update_counts] reads its keys ['track_id'] and
    ['centroid'], and a missing key raises [KeyError]. *)
Record detection : Type := mkDetection {
  det_track_id : option Z;
  det_centroid : option position
}.

(** A detection as [detect_and_track] builds it, with both keys. *)
Definition mk_det (track_id : Z) (centroid : position) : detection :=
  mkDetection (Some track_id) (Some centroid).

(** The fields of [FootfallCounter] that [update_counts] reads or writes. *)
Record FootfallCounter : Type := mkCounter {
  line_position : spec_float;
  track_history : gmap Z (list position);
  counted_ids : gset Z;
  entry_count : Z;
  exit_count : Z
}.

(** [FootfallCounter.__init__]. *)
Definition __init__ (line_position : spec_float) : FootfallCounter :=
  mkCounter line_position ∅ ∅ 0 0.

(** [self.track_history[track_id]] on a [defaultdict(list)]: the empty list
    for an unseen key. *)
Definition history (c : FootfallCounter) (track_id : Z) : list position :=
  default [] (track_history c !! track_id).

(** ** [update_counts] *)

(** [append(centroid)], then [pop(0)] when the list has grown past
    [TRACK_HISTORY_LENGTH]. *)
Definition store_track_history (old : list position) (centroid : position)
  : list position :=
  let appended := old ++ [centroid] in
  if decide (TRACK_HISTORY_LENGTH < length appended)%nat
  then drop 1 appended else appended.

(** [int(frame_height * self.line_position)] *)
Definition counting_line_y (line_position : spec_float) (frame_height : Z)
  : exn + Z :=
  match float_of_int frame_height with
  | inl e => inl e
  | inr h => int_of_float (SFmul prec emax h line_position)
  end.

(** The body of the [for detection in detections] loop. *)
Definition update_counts_step (counting_line_y : Z) (c : FootfallCounter)
    (d : detection) : FootfallCounter * outcome :=
  match det_track_id d with
  | None => (c, Raised (KeyError "track_id"))
  | Some track_id =>
    match det_centroid d with
    | None => (c, Raised (KeyError "centroid"))
    | Some centroid =>
      (* Store track history *)
      let h := store_track_history (history c track_id) centroid in
      let th := <[track_id := h]> (track_history c) in
      let c1 := mkCounter (line_position c) th (counted_ids c)
                          (entry_count c) (exit_count c) in
      (* Check for line crossing *)
      if decide ((2 ≤ length h)%nat ∧ track_id ∉ counted_ids c) then
        match py_index_from_end h 2, py_index_from_end h 1 with
        | Some prev, Some curr =>
          let prev_y := prev.2 in
          let curr_y := curr.2 in
          if (prev_y <? counting_line_y) && (counting_line_y <=? curr_y) then
            (mkCounter (line_position c) th ({[track_id]} ∪ counted_ids c)
                       (entry_count c + 1) (exit_count c), Returned)
          else if (counting_line_y <? prev_y) && (curr_y <=? counting_line_y) then
            (mkCounter (line_position c) th ({[track_id]} ∪ counted_ids c)
                       (entry_count c) (exit_count c + 1), Returned)
          else (c1, Returned)
        | _, _ => (c1, Raised IndexError)
        end
      else (c1, Returned)
    end
  end.

(** The [for] loop: an exception leaves the loop, and the detections after
    it are not visited. *)
Fixpoint update_counts_loop (counting_line_y : Z) (c : FootfallCounter)
    (detections : list detection) : FootfallCounter * outcome :=
  match detections with
  | [] => (c, Returned)
  | d :: rest =>
    match update_counts_step counting_line_y c d with
    | (c', Returned) => update_counts_loop counting_line_y c' rest
    | (c', Raised e) => (c', Raised e)
    end
  end.

(** [FootfallCounter.update_counts] *)
Definition update_counts (c : FootfallCounter) (detections : list detection)
    (frame_height : Z) : FootfallCounter * outcome :=
  match counting_line_y (line_position c) frame_height with
  | inl e => (c, Raised e)
  | inr y => update_counts_loop y c detections
  end.

(** The frames of a run, as [main] feeds them: the detections of each frame
    with the frame height; an exception ends the run. *)
Definition frame : Type := list detection * Z.

Fixpoint run (c : FootfallCounter) (frames : list frame)
  : FootfallCounter * outcome :=
  match frames with
  | [] => (c, Returned)
  | (detections, frame_height) :: rest =>
    match update_counts c detections frame_height with
    | (c', Returned) => run c' rest
    | (c', Raised e) => (c', Raised e)
    end
  end.

(** [entry_count - exit_count], as [draw_counts] and [main] print it. *)
Definition occupancy (c : FootfallCounter) : Z := entry_count c - exit_count c.

(** ** Observations on a step *)

(** What one loop iteration did to the totals and the counted set. *)
Definition entry_event (track_id : Z) (c c' : FootfallCounter) : Prop :=
  entry_count c' = entry_count c + 1 ∧ exit_count c' = exit_count c ∧
  counted_ids c' = {[track_id]} ∪ counted_ids c.

Definition exit_event (track_id : Z) (c c' : FootfallCounter) : Prop :=
  entry_count c' = entry_count c ∧ exit_count c' = exit_count c + 1 ∧
  counted_ids c' = {[track_id]} ∪ counted_ids c.

Definition no_event (c c' : FootfallCounter) : Prop :=
  entry_count c' = entry_count c ∧ exit_count c' = exit_count c ∧
  counted_ids c' = counted_ids c.

(** Successive calls of [update_counts], whatever the outcome of each: a
    caller that catches the exception of one call and goes on. *)
Fixpoint feed (c : FootfallCounter) (frames : list frame) : FootfallCounter :=
  match frames with
  | [] => c
  | (detections, frame_height) :: rest =>
    feed (update_counts c detections frame_height).1 rest
  end.

(** ** The totals and the counted set *)

Definition counts_grow (c c' : FootfallCounter) : Prop :=
  entry_count c ≤ entry_count c' ∧ exit_count c ≤ exit_count c' ∧
  counted_ids c ⊆ counted_ids c'.

Definition counts_match_counted (c : FootfallCounter) : Prop :=
  entry_count c + exit_count c = Z.of_nat (size (counted_ids c)).

(** ** What one track adds to the totals *)

Definition total (c : FootfallCounter) : Z := entry_count c + exit_count c.

(** The change of [entry_count + exit_count] over the iterations of one loop
    that handle detections of [track_id]. *)
Fixpoint loop_contribution (track_id : Z) (line : Z) (c : FootfallCounter)
    (detections : list detection) : Z :=
  match detections with
  | [] => 0
  | d :: rest =>
    let r := update_counts_step line c d in
    (if decide (det_track_id d = Some track_id) then total r.1 - total c else 0)
    + match r.2 with
      | Returned => loop_contribution track_id line r.1 rest
      | Raised _ => 0
      end
  end.

Definition call_contribution (track_id : Z) (c : FootfallCounter)
    (detections : list detection) (frame_height : Z) : Z :=
  match counting_line_y (line_position c) frame_height with
  | inl _ => 0
  | inr y => loop_contribution track_id y c detections
  end.

(** The same over a sequence of calls. *)
Fixpoint contribution (track_id : Z) (c : FootfallCounter)
    (frames : list frame) : Z :=
  match frames with
  | [] => 0
  | (detections, frame_height) :: rest =>
    call_contribution track_id c detections frame_height
    + contribution track_id (update_counts c detections frame_height).1 rest
  end.

(** ** What a track was observed at *)

(** The last [n] elements of a list, in order. *)
Definition keep_last {A : Type} (n : nat) (l : list A) : list A :=
  drop (length l - n) l.

(** A detection that has both keys. *)
Definition well_formed (d : detection) : Prop :=
  is_Some (det_track_id d) ∧ is_Some (det_centroid d).

(** The centroids that the detections of a frame report for [track_id], in
    the order of the list, and the same over the frames of a run. *)
Definition observed (track_id : Z) (detections : list detection)
  : list position :=
  omap (λ d, if decide (det_track_id d = Some track_id)
             then det_centroid d else None) detections.

Definition observations (track_id : Z) (frames : list frame)
  : list position :=
  concat (map (λ f : frame, observed track_id f.1) frames).

(** The frame height gives a counting line: the product is a finite
    float. *)
Definition line_defined (lp : spec_float) (frame_height : Z) : Prop :=
  ∃ y, counting_line_y lp frame_height = inr y.

Definition frame_ok (lp : spec_float) (f : frame) : Prop :=
  Forall well_formed f.1 ∧ line_defined lp f.2.

Definition history_bounded (c : FootfallCounter) : Prop :=
  ∀ track_id, (length (history c track_id) ≤ TRACK_HISTORY_LENGTH)%nat.

#[global] Instance well_formed_dec d : Decision (well_formed d).
Proof. unfold well_formed. apply _. Defined.

(** ** The counting line, exactly *)

Definition float_is_finite (f : spec_float) : bool :=
  match f with
  | S754_zero _ | S754_finite _ _ _ => true
  | _ => false
  end.

(** [y] is the value of the float [p] with its fractional part dropped:
    for [p] = (-1)^s * m * 2^e, the integer of that sign whose magnitude
    [q] has [q <= m * 2^e < q + 1]. *)
Definition truncation_of (p : spec_float) (y : Z) : Prop :=
  match p with
  | S754_zero _ => y = 0
  | S754_finite s m e =>
    ∃ q, y = cond_Zopp s q ∧
      if decide (0 ≤ e) then q = Zpos m * 2 ^ e
      else q * 2 ^ (- e) ≤ Zpos m < (q + 1) * 2 ^ (- e)
  | _ => False
  end.

(** The line as the specification words it, [round(f * frameHeight)]:
    Python's [round], to the nearest integer, a tie to the even one. *)
Definition round_of_float (f : spec_float) : exn + Z :=
  match f with
  | S754_nan => inl ValueError
  | S754_infinity _ => inl OverflowError
  | S754_zero _ => inr 0
  | S754_finite s m e =>
    if decide (0 ≤ e) then inr (cond_Zopp s (Zpos m * 2 ^ e))
    else
      let d := 2 ^ (- e) in
      let q := Zpos m / d in
      let r := Zpos m mod d in
      inr (cond_Zopp s
             match 2 * r ?= d with
             | Lt => q
             | Gt => q + 1
             | Eq => if Z.even q then q else q + 1
             end)
  end.

Definition spec_counting_line_y (line_position : spec_float)
    (frame_height : Z) : exn + Z :=
  match float_of_int frame_height with
  | inl e => inl e
  | inr h => round_of_float (SFmul prec emax h line_position)
  end.

(** The doubles 0.75 and 1.5. *)
Definition float_0_75 : spec_float :=
  Eval vm_compute in binary_normalize prec emax 3 (-2) false.

Definition float_1_5 : spec_float :=
  Eval vm_compute in binary_normalize prec emax 3 (-1) false.

(** ** Sample runs *)

(** Track 7 of the end-to-end scenario, one detection per frame, in frames
    200 pixels high: with the default fraction the line is at 100. *)
Definition sample_frame (p : position) : frame := ([mk_det 7 p], 200).

Definition sample_crossed : FootfallCounter :=
  (run (__init__ LINE_POSITION)
     (map sample_frame [(0, 20); (0, 50); (0, 90); (0, 110); (0, 130)])).1.

(** 35 frames for track 7, at y = 0, 1, ..., 34. *)
Definition sample_long_run : list frame :=
  map (λ n : nat, sample_frame (0, Z.of_nat n)) (seq 0 35).

(** The sum of [f] over a list of track_ids. *)
Definition sum_over (ids : list Z) (f : Z → Z) : Z :=
  foldr (λ t acc, f t + acc) 0 ids.

(** Every detection of every frame that has a track_id has it in [ids]. *)
Definition tracks_within (ids : list Z) (frames : list frame) : Prop :=
  Forall (λ f : frame,
    Forall (λ d, ∀ t, det_track_id d = Some t → t ∈ ids) f.1) frames.

(** ** The iteration in parts *)

(** What lines 69-81 find in a stored history. *)
Inductive crossing : Type :=
  | NoCrossing
  | Entry
  | Exit.

Definition crossing_of (line : Z) (h : list position) : crossing :=
  match py_index_from_end h 2, py_index_from_end h 1 with
  | Some prev, Some curr =>
    if (prev.2 <? line) && (line <=? curr.2) then Entry
    else if (line <? prev.2) && (curr.2 <=? line) then Exit
    else NoCrossing
  | _, _ => NoCrossing
  end.

(** Lines 64-66: the counter with the history of one track replaced. *)
Definition with_history (c : FootfallCounter) (track_id : Z)
    (h : list position) : FootfallCounter :=
  mkCounter (line_position c) (<[track_id := h]> (track_history c))
            (counted_ids c) (entry_count c) (exit_count c).

(** Lines 75-76 and 80-81: the counter with one crossing counted. *)
Definition count_crossing (track_id : Z) (k : crossing)
    (c : FootfallCounter) : FootfallCounter :=
  match k with
  | Entry =>
    mkCounter (line_position c) (track_history c)
              ({[track_id]} ∪ counted_ids c) (entry_count c + 1) (exit_count c)
  | Exit =>
    mkCounter (line_position c) (track_history c)
              ({[track_id]} ∪ counted_ids c) (entry_count c) (exit_count c + 1)
  | NoCrossing => c
  end.

(** The track_ids of the detections of a frame, in order. *)
Definition track_ids (detections : list detection) : list Z :=
  omap det_track_id detections.

(** The state after any calls on a fresh counter: every stored history has
    between 1 and [TRACK_HISTORY_LENGTH] positions, and a counted track has
    a history of at least two. *)
Definition state_ok (c : FootfallCounter) : Prop :=
  (∀ t h, track_history c !! t = Some h →
     (1 ≤ length h ≤ TRACK_HISTORY_LENGTH)%nat) ∧
  (∀ t, t ∈ counted_ids c → (2 ≤ length (history c t))%nat).

(** What only grows over a call. *)
Definition state_grows (c c' : FootfallCounter) : Prop :=
  counted_ids c ⊆ counted_ids c' ∧
  dom (track_history c) ⊆ dom (track_history c').

(** ** [detect_and_track] *)

(** The tracker ([self.model.track], from ultralytics) is outside the
    program; what [detect_and_track] reads of its answer is
    [results[0].boxes]: the ids ([None] when nothing is tracked, else the
    array after [astype(int)]), the corner coordinates [xyxy] and the
    confidences, both arrays of float32. *)
Definition prec32 : Z := 24.
Definition emax32 : Z := 128.

Definition box : Type := spec_float * spec_float * spec_float * spec_float.

Record tracker_boxes : Type := mkBoxes {
  boxes_id : option (list Z);
  boxes_xyxy : list box;
  boxes_conf : list spec_float
}.

(** The dict that [detect_and_track] appends for one tracked box. *)
Record tracked_detection : Type := mkTracked {
  td_bbox : Z * Z * Z * Z;
  td_centroid : position;
  td_track_id : Z;
  td_confidence : spec_float
}.

(** The float32 number 2. *)
Definition float32_two : spec_float :=
  Eval vm_compute in binary_normalize prec32 emax32 2 0 false.

(** [int((a + b) / 2)] on float32 numbers. *)
Definition midpoint (a b : spec_float) : exn + Z :=
  int_of_float (SFdiv prec32 emax32 (SFadd prec32 emax32 a b) float32_two).

(** The body of the loop over [zip(boxes, track_ids, confidences)]. *)
Definition detect_one (b : box) (track_id : Z) (conf : spec_float)
  : exn + tracked_detection :=
  let '(x1, y1, x2, y2) := b in
  match midpoint x1 x2 with
  | inl e => inl e
  | inr centroid_x =>
    match midpoint y1 y2 with
    | inl e => inl e
    | inr centroid_y =>
      match int_of_float x1 with
      | inl e => inl e
      | inr bx1 =>
        match int_of_float y1 with
        | inl e => inl e
        | inr by1 =>
          match int_of_float x2 with
          | inl e => inl e
          | inr bx2 =>
            match int_of_float y2 with
            | inl e => inl e
            | inr by2 =>
              inr (mkTracked (bx1, by1, bx2, by2) (centroid_x, centroid_y)
                             track_id conf)
            end
          end
        end
      end
    end
  end.

(** The loop: [zip] stops with the shortest of the three arrays. *)
Fixpoint detect_loop (boxes : list box) (track_ids : list Z)
    (confidences : list spec_float) : exn + list tracked_detection :=
  match boxes, track_ids, confidences with
  | b :: boxes', t :: track_ids', conf :: confidences' =>
    match detect_one b t conf with
    | inl e => inl e
    | inr d =>
      match detect_loop boxes' track_ids' confidences' with
      | inl e => inl e
      | inr ds => inr (d :: ds)
      end
    end
  | _, _, _ => inr []
  end.

(** [FootfallCounter.detect_and_track], from the tracker's answer on. *)
Definition detect_and_track (boxes : tracker_boxes)
  : exn + list tracked_detection :=
  match boxes_id boxes with
  | None => inr []
  | Some track_ids =>
    detect_loop (boxes_xyxy boxes) track_ids (boxes_conf boxes)
  end.

(** What [update_counts] reads of such a dict. *)
Definition to_detection (d : tracked_detection) : detection :=
  mk_det (td_track_id d) (td_centroid d).

(** ** Drawing *)

(** [self.track_history[k]] on the [defaultdict(list)]: reading a missing
    key stores an empty list under it. *)
Definition defaultdict_getitem (th : gmap Z (list position)) (k : Z)
  : gmap Z (list position) * list position :=
  match th !! k with
  | Some v => (th, v)
  | None => (<[k := []]> th, [])
  end.

(** The texts that the program writes on a frame or prints. *)
Inductive text : Type :=
  | text_counting_line
  | text_id (track_id : Z)
  | text_entries (n : Z)
  | text_exits (n : Z)
  | text_total (n : Z).

(** A colour, as OpenCV takes it: (blue, green, red). *)
Definition colour : Type := Z * Z * Z.

(** The calls into OpenCV that draw on the frame, with the arguments that
    are not constants of the source (fonts, scales and thicknesses are
    left out). OpenCV and NumPy are outside the program and their calls are
    taken to succeed. *)
Inductive draw_cmd : Type :=
  | cv2_line (pt1 pt2 : Z * Z) (c : colour)
  | cv2_putText (t : text) (org : Z * Z) (c : colour)
  | cv2_rectangle (pt1 pt2 : Z * Z) (c : colour)
  | cv2_circle (center : position) (radius : Z) (c : colour)
  | cv2_polylines (points : list position) (c : colour)
  | cv2_overlay (pt1 pt2 : Z * Z).

(** The drawing of one detection, lines 96-114; the counter is threaded
    through because of the reads of [self.track_history]. *)
Definition draw_detection (c : FootfallCounter) (d : tracked_detection)
  : FootfallCounter * list draw_cmd :=
  let '(b0, b1, b2, b3) := td_bbox d in
  let centroid := td_centroid d in
  let track_id := td_track_id d in
  let color : colour :=
    if decide (track_id ∈ counted_ids c) then (0, 255, 0) else (255, 0, 0) in
  let cmds :=
    [cv2_rectangle (b0, b1) (b2, b3) color;
     cv2_putText (text_id track_id) (b0, b1 - 10) color;
     cv2_circle centroid 4 color] in
  (* track_id in self.track_history and len(self.track_history[track_id]) > 1 *)
  match track_history c !! track_id with
  | None => (c, cmds)
  | Some _ =>
    let '(th1, h) := defaultdict_getitem (track_history c) track_id in
    let c1 := mkCounter (line_position c) th1 (counted_ids c)
                        (entry_count c) (exit_count c) in
    if decide (1 < length h)%nat then
      let '(th2, points) := defaultdict_getitem th1 track_id in
      (mkCounter (line_position c) th2 (counted_ids c)
                 (entry_count c) (exit_count c),
       cmds ++ [cv2_polylines points color])
    else (c1, cmds)
  end.

Fixpoint draw_detections (c : FootfallCounter)
    (detections : list tracked_detection) : FootfallCounter * list draw_cmd :=
  match detections with
  | [] => (c, [])
  | d :: rest =>
    let '(c1, cmds) := draw_detection c d in
    let '(c2, cmds') := draw_detections c1 rest in
    (c2, cmds ++ cmds')
  end.

(** [FootfallCounter.draw_visualizations]; [shape] is [frame.shape[:2]],
    height first. *)
Definition draw_visualizations (c : FootfallCounter) (shape : Z * Z)
    (detections : list tracked_detection)
  : FootfallCounter * (exn + list draw_cmd) :=
  let '(frame_height, frame_width) := shape in
  match counting_line_y (line_position c) frame_height with
  | inl e => (c, inl e)
  | inr y =>
    let '(c', cmds) := draw_detections c detections in
    (c', inr ([cv2_line (0, y) (frame_width, y) (0, 255, 255);
               cv2_putText text_counting_line (10, y - 10) (0, 255, 255)]
              ++ cmds))
  end.

(** [FootfallCounter.draw_counts] *)
Definition draw_counts (c : FootfallCounter) : list draw_cmd :=
  [cv2_overlay (10, 10) (300, 120);
   cv2_putText (text_entries (entry_count c)) (20, 40) (0, 255, 0);
   cv2_putText (text_exits (exit_count c)) (20, 70) (0, 0, 255);
   cv2_putText (text_total (entry_count c - exit_count c)) (20, 100)
               (255, 255, 0)].

(** ** [main] *)

(** The video and the keyboard are outside the program. A video frame is
    given by what the program reads of it: [frame.shape[:2]] and the
    tracker's answer for it; the capture by whether it opened, its three
    properties (doubles, as [cap.get] returns them) and its frames, after
    which [cap.read()] fails. *)
Record video_frame : Type := mkFrame {
  frame_shape : Z * Z;
  frame_boxes : tracker_boxes
}.

Record video : Type := mkVideo {
  is_opened : bool;
  prop_fps : spec_float;
  prop_frame_width : spec_float;
  prop_frame_height : spec_float;
  video_frames : list video_frame
}.

(** What [main] prints. *)
Inductive printed : Type :=
  | print_could_not_open
  | print_video_loaded (frame_width frame_height fps : Z)
  | print_processing
  | print_end_of_video
  | print_progress (frame_count entries exits current : Z)
  | print_paused
  | print_resumed
  | print_final (entries exits occupancy frames : Z).

(** The variables of [main] that change in the loop, the frames that the
    capture still has, and the output so far. *)
Record main_state : Type := mkMain {
  ms_counter : FootfallCounter;
  ms_frames_left : list video_frame;
  ms_frame_count : Z;
  ms_paused : bool;
  ms_output : list printed
}.

(** How the loop body ends: it goes round again, it leaves the loop with
    [break], or an exception leaves [main]. *)
Inductive loop_status : Type :=
  | Looping
  | Broke
  | Crashed (e : exn).

(** The [if not paused:] block of the loop; [draw_counts] only writes on
    the frame and is left out of it. *)
Definition process_frame (frame_height : Z) (s : main_state)
  : main_state * loop_status :=
  if ms_paused s then (s, Looping)
  else
    match ms_frames_left s with
    | [] =>
      (mkMain (ms_counter s) [] (ms_frame_count s) (ms_paused s)
              (ms_output s ++ [print_end_of_video]), Broke)
    | f :: rest =>
      let frame_count := ms_frame_count s + 1 in
      let at_frame c :=
        mkMain c rest frame_count (ms_paused s) (ms_output s) in
      match detect_and_track (frame_boxes f) with
      | inl e => (at_frame (ms_counter s), Crashed e)
      | inr detections =>
        match update_counts (ms_counter s) (to_detection <$> detections)
                frame_height with
        | (c1, Raised e) => (at_frame c1, Crashed e)
        | (c1, Returned) =>
          match draw_visualizations c1 (frame_shape f) detections with
          | (c2, inl e) => (at_frame c2, Crashed e)
          | (c2, inr _) =>
            (mkMain c2 rest frame_count (ms_paused s)
               (ms_output s ++
                if decide (frame_count `mod` 30 = 0)
                then [print_progress frame_count (entry_count c2)
                        (exit_count c2) (entry_count c2 - exit_count c2)]
                else []),
             Looping)
          end
        end
      end
    end.

(** The key handling at the end of the loop body; [key] is what
    [cv2.waitKey] returned. *)
Definition handle_key (s : main_state) (key : Z) : main_state * loop_status :=
  let key := Z.land key 255 in
  if key =? 27 then (s, Broke)
  else if key =? 32 then
    (mkMain (ms_counter s) (ms_frames_left s) (ms_frame_count s)
            (negb (ms_paused s))
            (ms_output s ++
             [if negb (ms_paused s) then print_paused else print_resumed]),
     Looping)
  else (s, Looping).

Definition main_iteration (frame_height : Z) (s : main_state) (key : Z)
  : main_state * loop_status :=
  match process_frame frame_height s with
  | (s1, Looping) => handle_key s1 key
  | r => r
  end.

(** The [while True:] loop, for the keys that [cv2.waitKey] returns one
    after the other; when they are used up the loop is still going. *)
Fixpoint main_loop (frame_height : Z) (s : main_state) (keys : list Z)
  : main_state * loop_status :=
  match keys with
  | [] => (s, Looping)
  | key :: rest =>
    match main_iteration frame_height s key with
    | (s1, Looping) => main_loop frame_height s1 rest
    | r => r
    end
  end.

(** How [main] ends. *)
Inductive main_end : Type :=
  | NotOpened
  | Finished
  | StillLooping
  | MainRaised (e : exn).

Definition main (v : video) (keys : list Z) : main_state * main_end :=
  let counter := __init__ LINE_POSITION in
  let start := mkMain counter (video_frames v) 0 false in
  if negb (is_opened v) then (start [print_could_not_open], NotOpened)
  else
    match int_of_float (prop_fps v) with
    | inl e => (start [], MainRaised e)
    | inr fps =>
      match int_of_float (prop_frame_width v) with
      | inl e => (start [], MainRaised e)
      | inr frame_width =>
        match int_of_float (prop_frame_height v) with
        | inl e => (start [], MainRaised e)
        | inr frame_height =>
          match main_loop frame_height
                  (start [print_video_loaded frame_width frame_height fps;
                          print_processing]) keys with
          | (s, Looping) => (s, StillLooping)
          | (s, Crashed e) => (s, MainRaised e)
          | (s, Broke) =>
            (mkMain (ms_counter s) (ms_frames_left s) (ms_frame_count s)
               (ms_paused s)
               (ms_output s ++
                [print_final (entry_count (ms_counter s))
                   (exit_count (ms_counter s))
                   (entry_count (ms_counter s) - exit_count (ms_counter s))
                   (ms_frame_count s)]),
             Finished)
          end
        end
      end
    end.

(** The frame that [main] passes to [update_counts] for a video frame: the
    detections of the frame, none when [detect_and_track] raised, with the
    frame height of the capture. *)
Definition fed_frame (frame_height : Z) (f : video_frame) : frame :=
  (match detect_and_track (frame_boxes f) with
   | inr detections => to_detection <$> detections
   | inl _ => []
   end, frame_height).

(** The progress lines in the output, in order. *)
Definition progress_lines (output : list printed) : list (Z * Z * Z * Z) :=
  omap (λ p, match p with
             | print_progress n e x cur => Some (n, e, x, cur)
             | _ => None
             end) output.

(** Neither ESC nor SPACE. *)
Definition other_key (key : Z) : Prop :=
  Z.land key 255 ≠ 27 ∧ Z.land key 255 ≠ 32.

(** The progress line that [main] prints after [k] times 30 frames of the
    video [frames]. *)
Definition progress_line (frame_height : Z) (frames : list video_frame)
    (k : nat) : Z * Z * Z * Z :=
  let c := (run (__init__ LINE_POSITION)
              (fed_frame frame_height <$> take (30 * k) frames)).1 in
  (Z.of_nat (30 * k), entry_count c, exit_count c,
   entry_count c - exit_count c).

(** What holds of the state of [main] at the top of the loop, after [n]
    frames of the video. *)
Definition main_invariant (frame_height : Z) (frames : list video_frame)
    (s : main_state) (n : nat) : Prop :=
  ms_frame_count s = Z.of_nat n ∧
  (n ≤ length frames)%nat ∧
  ms_frames_left s = drop n frames ∧
  run (__init__ LINE_POSITION) (fed_frame frame_height <$> take n frames)
    = (ms_counter s, Returned) ∧
  progress_lines (ms_output s) =
    progress_line frame_height frames <$> seq 1 (n / 30).

(** The same without the parts that an exception cuts short. *)
Definition main_reached (frame_height : Z) (frames : list video_frame)
    (s : main_state) (n : nat) : Prop :=
  ms_frame_count s = Z.of_nat n ∧
  (n ≤ length frames)%nat ∧
  ms_frames_left s = drop n frames ∧
  ms_counter s =
    (run (__init__ LINE_POSITION)
       (fed_frame frame_height <$> take n frames)).1.

(** A video frame that [main] handles without an exception: its height is
    below 2^53 in magnitude and [detect_and_track] returns for it. *)
Definition frame_sane (f : video_frame) : Prop :=
  - 2 ^ 53 < (frame_shape f).1 < 2 ^ 53 ∧
  ∃ detections, detect_and_track (frame_boxes f) = inr detections.

(** ** A sample video *)

Definition float32_of_int (z : Z) : spec_float :=
  binary_normalize prec32 emax32 z 0 false.

Definition float64_of_int (z : Z) : spec_float :=
  binary_normalize prec emax z 0 false.

(** The tracker's answer for one person, track 7, in a box 20 by 20 pixels
    around (110, y), with confidence 0.5. *)
Definition sample_boxes (y : Z) : tracker_boxes :=
  mkBoxes (Some [7])
    [(float32_of_int 100, float32_of_int (y - 10),
      float32_of_int 120, float32_of_int (y + 10))]
    [binary_normalize prec32 emax32 1 (-1) false].

(** 31 frames of 640 by 480 pixels, in which the person walks down from
    y = 200 to y = 260, across the line at 240. *)
Definition sample_video_frames : list video_frame :=
  (λ n : nat, mkFrame (480, 640) (sample_boxes (200 + 2 * Z.of_nat n)))
    <$> seq 0 31.

Definition sample_video : video :=
  mkVideo true (float64_of_int 30) (float64_of_int 640) (float64_of_int 480)
          sample_video_frames.

(** No key is pressed: [cv2.waitKey] returns -1. *)
Definition sample_keys : list Z := replicate 40 (-1).

(** * Lists and histories *)

Section Histories.
Context {A : Type}.
Implicit Types (l pre : list A) (a b : A).

Lemma py_index_from_end_last pre a :
  py_index_from_end (pre ++ [a]) 1 = Some a.
Proof.
  unfold py_index_from_end. rewrite length_app. simpl.
  case_decide; [|lia].
  apply list_lookup_middle. lia.
Qed.

Lemma py_index_from_end_second_last pre a b :
  py_index_from_end (pre ++ [a; b]) 2 = Some a.
Proof.
  unfold py_index_from_end. rewrite length_app. simpl.
  case_decide; [|lia].
  apply list_lookup_middle. lia.
Qed.

Lemma split_last_two l :
  (2 ≤ length l)%nat → ∃ pre a b, l = pre ++ [a; b].
Proof.
  intros Hl.
  destruct (decide (l = [])) as [->|Hne]; [simpl in Hl; lia|].
  destruct (exists_last Hne) as [l1 [b ->]].
  rewrite length_app in Hl. simpl in Hl.
  destruct (decide (l1 = [])) as [->|Hne1]; [simpl in Hl; lia|].
  destruct (exists_last Hne1) as [pre [a ->]].
  exists pre, a, b. by rewrite <- app_assoc.
Qed.
End Histories.

Lemma store_track_history_length old p :
  length (store_track_history old p) =
    Nat.min (S (length old)) (Nat.max TRACK_HISTORY_LENGTH (length old)).
Proof.
  unfold store_track_history, TRACK_HISTORY_LENGTH. cbn zeta.
  case_decide as Hlen; rewrite ?length_drop, !length_app in *;
    cbn [length] in *; lia.
Qed.

Lemma store_track_history_bounded old p :
  (length old ≤ TRACK_HISTORY_LENGTH)%nat →
  (length (store_track_history old p) ≤ TRACK_HISTORY_LENGTH)%nat.
Proof. rewrite store_track_history_length. unfold TRACK_HISTORY_LENGTH. lia. Qed.

Lemma store_track_history_last_two old q p :
  ∃ pre, store_track_history (old ++ [q]) p = pre ++ [q; p].
Proof.
  unfold store_track_history. cbn zeta. rewrite <- app_assoc. simpl.
  case_decide as Hlen.
  - destruct old as [|r old]; simpl in *.
    + unfold TRACK_HISTORY_LENGTH in Hlen. lia.
    + rewrite drop_0. by exists old.
  - by exists old.
Qed.

(** * One iteration of the loop *)

Section Step.
Variable line : Z.
Implicit Types (c : FootfallCounter) (d : detection) (p : position).

(** The iteration's effects, case by case, for a detection that has both
    keys. *)
Lemma update_counts_step_mk_det c track_id p :
  let h := store_track_history (history c track_id) p in
  ∃ c', update_counts_step line c (mk_det track_id p) = (c', Returned) ∧
    line_position c' = line_position c ∧
    track_history c' = <[track_id := h]> (track_history c) ∧
    (track_id ∈ counted_ids c → no_event c c') ∧
    (track_id ∉ counted_ids c → (length h < 2)%nat → no_event c c') ∧
    (track_id ∉ counted_ids c → ∀ pre prev curr, h = pre ++ [prev; curr] →
       (prev.2 < line ∧ line ≤ curr.2 ∧ entry_event track_id c c') ∨
       (line < prev.2 ∧ curr.2 ≤ line ∧ exit_event track_id c c') ∨
       (¬ (prev.2 < line ∧ line ≤ curr.2) ∧
        ¬ (line < prev.2 ∧ curr.2 ≤ line) ∧ no_event c c')).
Proof.
  intros h. unfold update_counts_step. cbn [det_track_id det_centroid mk_det].
  fold h. cbv zeta.
  destruct (decide ((2 ≤ length h)%nat ∧ track_id ∉ counted_ids c))
    as [[Hlen Hnew]|Hno].
  - destruct (split_last_two h Hlen) as (pre & a & b & Hh).
    assert (Hprev : py_index_from_end h 2 = Some a)
      by (rewrite Hh; apply py_index_from_end_second_last).
    assert (Hcurr : py_index_from_end h 1 = Some b).
    { rewrite Hh. change [a; b] with ([a] ++ [b]). rewrite app_assoc.
      apply py_index_from_end_last. }
    rewrite Hprev, Hcurr.
    assert (Hinj : ∀ pre' prev curr, h = pre' ++ [prev; curr] →
               prev = a ∧ curr = b).
    { intros pre' prev curr Heq. rewrite Hh in Heq.
      change [a; b] with ([a] ++ [b]) in Heq.
      change [prev; curr] with ([prev] ++ [curr]) in Heq.
      rewrite !app_assoc in Heq.
      apply app_inj_tail in Heq as [Heq ->].
      apply app_inj_tail in Heq as [_ ->]. done. }
    destruct (a.2 <? line) eqn:E1; destruct (line <=? b.2) eqn:E2;
      destruct (line <? a.2) eqn:E3; destruct (b.2 <=? line) eqn:E4;
      cbn [andb]; eexists; (split; [reflexivity|]);
      cbn [line_position track_history counted_ids entry_count exit_count];
      (split; [reflexivity|]); (split; [reflexivity|]);
      (split; [done|]); (split; [intros; lia|]);
      intros _ pre' prev curr Heq;
      destruct (Hinj _ _ _ Heq) as [-> ->];
      unfold entry_event, exit_event, no_event;
      cbn [line_position track_history counted_ids entry_count exit_count];
      lia || (try (left; repeat split; lia));
      try (right; left; repeat split; lia);
      try (right; right; repeat split; lia).
  - eexists; split; [reflexivity|].
    cbn [line_position track_history counted_ids entry_count exit_count].
    repeat split; try done.
    intros Hnew pre prev curr Heq. exfalso. apply Hno. split; [|done].
    rewrite Heq, length_app. simpl. lia.
Qed.
End Step.

Section StepEffects.
Variable line : Z.
Implicit Types (c : FootfallCounter) (d : detection).

(** A detection that lacks a key raises before anything is written. *)
Lemma update_counts_step_malformed c d :
  det_track_id d = None ∨ det_centroid d = None →
  ∃ e, update_counts_step line c d = (c, Raised e).
Proof.
  unfold update_counts_step.
  destruct (det_track_id d), (det_centroid d); intros [?|?]; try done; eauto.
Qed.

(** Whatever the detection, an iteration either leaves the totals and the
    counted set alone, or counts the detection's track, which was not
    counted before. *)
Lemma update_counts_step_effect c d :
  let c' := (update_counts_step line c d).1 in
  no_event c c' ∨
  ∃ track_id, det_track_id d = Some track_id ∧
    (track_id ∉ counted_ids c) ∧
    (entry_event track_id c c' ∨ exit_event track_id c c').
Proof.
  destruct d as [[track_id|] [p|]]; cbn zeta.
  2-4: left; edestruct (update_counts_step_malformed c) as [e ->];
       [cbn; eauto | done].
  change (mkDetection (Some track_id) (Some p)) with (mk_det track_id p).
  destruct (update_counts_step_mk_det line c track_id p)
    as (c' & -> & _ & _ & Hin & Hshort & Hlong).
  cbn [fst].
  destruct (decide (track_id ∈ counted_ids c)) as [?|Hnew]; [by left; auto|].
  set (h := store_track_history (history c track_id) p) in *.
  destruct (decide (length h < 2)%nat) as [?|Hlen]; [by left; auto|].
  destruct (split_last_two h) as (pre & a & b & Hh); [lia|].
  destruct (Hlong Hnew _ _ _ Hh) as [(_ & _ & ?)|[(_ & _ & ?)|(_ & _ & ?)]];
    [right; exists track_id; auto..|by left].
Qed.

Lemma update_counts_step_line_position c d :
  line_position (update_counts_step line c d).1 = line_position c.
Proof.
  destruct d as [[track_id|] [p|]].
  2-4: edestruct (update_counts_step_malformed c) as [e ->];
       [cbn; eauto | done].
  change (mkDetection (Some track_id) (Some p)) with (mk_det track_id p).
  by destruct (update_counts_step_mk_det line c track_id p)
    as (c' & -> & ? & _).
Qed.

(** The histories after an iteration: the detection's track has the new
    centroid stored, the other tracks are as before. *)
Lemma update_counts_step_history c track_id p :
  track_history (update_counts_step line c (mk_det track_id p)).1 =
    <[track_id := store_track_history (history c track_id) p]>
      (track_history c).
Proof.
  by destruct (update_counts_step_mk_det line c track_id p)
    as (c' & -> & _ & ? & _).
Qed.
End StepEffects.

(** * From one iteration to calls and runs *)

Section Lifting.
(** A relation between states that every loop iteration respects carries
    over to [update_counts], to [run] and to [feed]. *)
Variable R : FootfallCounter → FootfallCounter → Prop.
Hypothesis R_refl : ∀ c, R c c.
Hypothesis R_trans : ∀ c1 c2 c3, R c1 c2 → R c2 c3 → R c1 c3.
Hypothesis R_step : ∀ line c d, R c (update_counts_step line c d).1.

Lemma update_counts_loop_lift line c detections :
  R c (update_counts_loop line c detections).1.
Proof.
  revert c. induction detections as [|d rest IH]; intros c; cbn; [done|].
  pose proof (R_step line c d) as Hstep.
  destruct (update_counts_step line c d) as [c' [|e]]; cbn in *; [|done].
  eapply R_trans; [exact Hstep | apply IH].
Qed.

Lemma update_counts_lift c detections frame_height :
  R c (update_counts c detections frame_height).1.
Proof.
  unfold update_counts.
  destruct (counting_line_y _ _); [done | apply update_counts_loop_lift].
Qed.

Lemma feed_lift c frames : R c (feed c frames).
Proof.
  revert c. induction frames as [|[ds fh] rest IH]; intros c; cbn; [done|].
  eapply R_trans; [apply update_counts_lift | apply IH].
Qed.

Lemma run_lift c frames : R c (run c frames).1.
Proof.
  revert c. induction frames as [|[ds fh] rest IH]; intros c; cbn; [done|].
  pose proof (update_counts_lift c ds fh) as Hcall.
  destruct (update_counts c ds fh) as [c' [|e]]; cbn in *; [|done].
  eapply R_trans; [exact Hcall | apply IH].
Qed.
End Lifting.

Section Invariants.
(** An invariant that every loop iteration preserves holds after any
    sequence of calls. *)
Variable I : FootfallCounter → Prop.
Hypothesis I_step : ∀ line c d, I c → I (update_counts_step line c d).1.

Lemma feed_invariant c frames : I c → I (feed c frames).
Proof. apply (feed_lift (λ c c', I c → I c')); auto. Qed.
End Invariants.

Lemma update_counts_step_grow line c d :
  counts_grow c (update_counts_step line c d).1.
Proof.
  unfold counts_grow.
  destruct (update_counts_step_effect line c d)
    as [(-> & -> & ->)|(t & _ & _ & [(-> & -> & ->)|(-> & -> & ->)])];
    repeat split; try lia; set_solver.
Qed.

Lemma counts_grow_trans c1 c2 c3 :
  counts_grow c1 c2 → counts_grow c2 c3 → counts_grow c1 c3.
Proof.
  unfold counts_grow. intros (? & ? & ?) (? & ? & ?).
  repeat split; try lia; set_solver.
Qed.

Lemma counts_grow_refl c : counts_grow c c.
Proof. unfold counts_grow. repeat split; try lia; set_solver. Qed.

Lemma update_counts_step_match line c d :
  counts_match_counted c →
  counts_match_counted (update_counts_step line c d).1.
Proof.
  unfold counts_match_counted. intros Hc.
  destruct (update_counts_step_effect line c d)
    as [(-> & -> & ->)|(t & _ & Hnew & [(-> & -> & ->)|(-> & -> & ->)])];
    [done|..];
    rewrite size_union, size_singleton by set_solver; lia.
Qed.

(** ** At most one count per track *)

Section Contribution.
Variable track_id : Z.

Lemma loop_contribution_bounds line c detections :
  let n := loop_contribution track_id line c detections in
  let c' := (update_counts_loop line c detections).1 in
  0 ≤ n ≤ 1 ∧ (track_id ∈ counted_ids c → n = 0) ∧
  (n = 1 → track_id ∈ counted_ids c') ∧ counted_ids c ⊆ counted_ids c'.
Proof.
  revert c. induction detections as [|d rest IH]; intros c; cbn zeta.
  { cbn. repeat split; try lia; set_solver. }
  cbn [loop_contribution update_counts_loop].
  pose proof (update_counts_step_effect line c d) as Heff.
  destruct (update_counts_step line c d) as [c1 o] eqn:Hstep.
  cbn [fst snd] in *.
  set (a := if decide (det_track_id d = Some track_id)
            then total c1 - total c else 0).
  set (b := match o with
            | Returned => loop_contribution track_id line c1 rest
            | Raised _ => 0
            end).
  set (c2 := (match o with
              | Returned => update_counts_loop line c1 rest
              | Raised e => (c1, Raised e)
              end).1).
  assert (Hb : 0 ≤ b ≤ 1 ∧ (track_id ∈ counted_ids c1 → b = 0) ∧
               (b = 1 → track_id ∈ counted_ids c2) ∧
               counted_ids c1 ⊆ counted_ids c2).
  { subst b c2. destruct o as [|e]; [apply IH|].
    cbn. repeat split; try lia; set_solver. }
  assert (Ha : counted_ids c ⊆ counted_ids c1 ∧
               (a = 0 ∨ a = 1 ∧ (track_id ∉ counted_ids c)
                            ∧ track_id ∈ counted_ids c1)).
  { subst a. unfold total.
    destruct Heff as [(-> & -> & ->)|(t & Ht & Hnew & Hev)].
    - split; [done|]. left. case_decide; lia.
    - assert (Hc : counted_ids c1 = {[t]} ∪ counted_ids c)
        by (by destruct Hev as [(_ & _ & ?)|(_ & _ & ?)]).
      split; [set_solver|].
      case_decide as Hid; [|by left].
      rewrite Ht in Hid. injection Hid as ->. right.
      split; [|set_solver].
      destruct Hev as [(-> & -> & _)|(-> & -> & _)]; lia. }
  clearbody a b c2.
  destruct Hb as (Hb & Hb0 & Hb1 & Hsub), Ha as (Hsub' & Ha).
  split; [|split; [|split]].
  - destruct Ha as [->|(-> & _ & Hin)]; [lia|]. rewrite Hb0 by done. lia.
  - intros Hin. destruct Ha as [->|(_ & Hnew & _)]; [|done].
    rewrite Hb0 by set_solver. lia.
  - intros Hsum. destruct Ha as [->|(-> & _ & Hin)]; [|set_solver].
    apply Hb1. lia.
  - set_solver.
Qed.

Lemma call_contribution_bounds c detections frame_height :
  let n := call_contribution track_id c detections frame_height in
  let c' := (update_counts c detections frame_height).1 in
  0 ≤ n ≤ 1 ∧ (track_id ∈ counted_ids c → n = 0) ∧
  (n = 1 → track_id ∈ counted_ids c') ∧ counted_ids c ⊆ counted_ids c'.
Proof.
  unfold call_contribution, update_counts.
  destruct (counting_line_y _ _) as [e|y]; [|apply loop_contribution_bounds].
  cbn. repeat split; try lia; set_solver.
Qed.

Lemma contribution_bounds c frames :
  let n := contribution track_id c frames in
  0 ≤ n ≤ 1 ∧ (track_id ∈ counted_ids c → n = 0).
Proof.
  revert c. induction frames as [|[ds fh] rest IH]; intros c; cbn zeta.
  { cbn. split; [lia | done]. }
  cbn [contribution].
  destruct (call_contribution_bounds c ds fh) as (Hn & Hin & Hone & Hsub).
  destruct (IH (update_counts c ds fh).1) as (Hn' & Hin').
  split.
  - destruct (decide (call_contribution track_id c ds fh = 1)) as [E|E].
    + rewrite Hin' by auto. lia.
    + lia.
  - intros Hc. rewrite Hin by done. rewrite Hin' by set_solver. lia.
Qed.
End Contribution.

(** In a state where every detection of a frame belongs to a counted track,
    the call changes neither total nor the counted set. *)
Lemma update_counts_loop_counted track_id line c detections :
  track_id ∈ counted_ids c →
  Forall (λ d, det_track_id d = Some track_id) detections →
  no_event c (update_counts_loop line c detections).1.
Proof.
  intros Hin Hall. revert c Hin.
  induction Hall as [|d rest Hd _ IH]; intros c Hin; cbn; [done|].
  pose proof (update_counts_step_effect line c d) as Heff.
  destruct (update_counts_step line c d) as [c1 o]. cbn [fst] in Heff.
  assert (Hno : no_event c c1).
  { destruct Heff as [?|(t & Ht & Hnew & _)]; [done|].
    rewrite Hd in Ht. injection Ht as <-. done. }
  destruct o as [|e]; [|done].
  destruct Hno as (He & Hx & Hc).
  destruct (IH c1) as (He' & Hx' & Hc'); [by rewrite Hc|].
  unfold no_event. by rewrite He', Hx', Hc'.
Qed.

(** ** The contributions account for the totals *)

Section SumOver.
Implicit Types (ids : list Z) (f g : Z → Z).

Lemma sum_over_add ids f g :
  sum_over ids (λ t, f t + g t) = sum_over ids f + sum_over ids g.
Proof. unfold sum_over. induction ids as [|t l IH]; cbn; [done | lia]. Qed.

Lemma sum_over_ext ids f g :
  (∀ t, t ∈ ids → f t = g t) → sum_over ids f = sum_over ids g.
Proof.
  unfold sum_over. induction ids as [|t l IH]; intros Hfg; cbn; [done|].
  rewrite Hfg by apply list_elem_of_here.
  rewrite IH; [done|]. intros t' Ht'. by apply Hfg, list_elem_of_further.
Qed.

Lemma sum_over_zero ids : sum_over ids (λ _, 0) = 0.
Proof. unfold sum_over. induction ids as [|t l IH]; cbn; [done | lia]. Qed.

(** Only the track of the detection gets the amount [a]. *)
Lemma sum_over_only ids (o : option Z) a :
  NoDup ids →
  (∀ t, o = Some t → t ∈ ids) →
  sum_over ids (λ t, if decide (o = Some t) then a else 0) =
    match o with Some _ => a | None => 0 end.
Proof.
  intros Hnd Hin. destruct o as [t0|].
  - specialize (Hin t0 eq_refl).
    induction Hnd as [|t l Hnotin Hnd IH]; [by apply elem_of_nil in Hin|].
    change (sum_over (t :: l) ?f) with (f t + sum_over l f). cbn beta.
    case_decide as Heq.
    + injection Heq as ->.
      rewrite (sum_over_ext l _ (λ _, 0)); [rewrite sum_over_zero; lia|].
      intros t' Ht'. case_decide as E; [|done].
      injection E as ->. done.
    + apply elem_of_cons in Hin as [->|Hin]; [done|].
      rewrite IH by done. lia.
  - rewrite (sum_over_ext _ _ (λ _, 0)); [apply sum_over_zero|].
    intros t _. by case_decide.
Qed.
End SumOver.

Section Accounting.
Variable ids : list Z.
Hypothesis ids_nodup : NoDup ids.

Lemma loop_contribution_total line c detections :
  Forall (λ d, ∀ t, det_track_id d = Some t → t ∈ ids) detections →
  total (update_counts_loop line c detections).1 - total c =
    sum_over ids (λ t, loop_contribution t line c detections).
Proof.
  intros Hall. revert c.
  induction Hall as [|d rest Hd _ IH]; intros c.
  { cbn. rewrite sum_over_zero. lia. }
  cbn [loop_contribution update_counts_loop].
  rewrite sum_over_add, (sum_over_only _ _ _ ids_nodup Hd).
  assert (Hbad : det_track_id d = None →
            (update_counts_step line c d).1 = c).
  { intros Hnone.
    edestruct (update_counts_step_malformed line c d) as [e ->]; eauto. }
  destruct (update_counts_step line c d) as [c1 o]. cbn [fst snd] in *.
  assert (Hfirst : match det_track_id d with
                   | Some _ => total c1 - total c
                   | None => 0
                   end = total c1 - total c).
  { destruct (det_track_id d); [done|]. rewrite Hbad by done. lia. }
  rewrite Hfirst. destruct o as [|e].
  - rewrite <- IH. lia.
  - rewrite sum_over_zero. cbn. lia.
Qed.

Lemma call_contribution_total c detections frame_height :
  Forall (λ d, ∀ t, det_track_id d = Some t → t ∈ ids) detections →
  total (update_counts c detections frame_height).1 - total c =
    sum_over ids (λ t, call_contribution t c detections frame_height).
Proof.
  intros Hall. unfold call_contribution, update_counts.
  destruct (counting_line_y _ _) as [e|y].
  - rewrite sum_over_zero. cbn. lia.
  - by apply loop_contribution_total.
Qed.

(** What the totals gain over a sequence of calls is the sum of what the
    tracks contribute. *)
Lemma contribution_total c frames :
  tracks_within ids frames →
  total (feed c frames) - total c =
    sum_over ids (λ t, contribution t c frames).
Proof.
  intros Hall. revert c.
  induction Hall as [|[ds fh] rest Hds _ IH]; intros c.
  { cbn. rewrite sum_over_zero. lia. }
  cbn [contribution feed]. rewrite sum_over_add.
  rewrite <- IH, <- (call_contribution_total c ds fh Hds). lia.
Qed.
End Accounting.

(** * The claims *)

(** C1. At most once: over any sequence of calls, the iterations that handle
    one track_id change [entry_count + exit_count] by 0 or by 1 in all; and
    once the track_id is in [counted_ids], a call whose detections all carry
    it leaves [entry_count], [exit_count] and [counted_ids] as they were. *)
Theorem at_most_once (track_id : Z) (c : FootfallCounter)
    (frames : list frame) :
  (contribution track_id c frames = 0 ∨ contribution track_id c frames = 1) ∧
  (track_id ∈ counted_ids c →
   contribution track_id c frames = 0 ∧
   ∀ detections frame_height,
     Forall (λ d, det_track_id d = Some track_id) detections →
     no_event c (update_counts c detections frame_height).1).
Proof.
  destruct (contribution_bounds track_id c frames) as [Hn Hin].
  split; [lia|]. intros Hc. split; [auto|].
  intros ds fh Hall. unfold update_counts.
  destruct (counting_line_y _ _) as [e|y]; [done|].
  by apply update_counts_loop_counted with track_id.
Qed.

(** C5. Both totals are non-negative and never decrease: not over a
    sequence of calls, and not over a single iteration of the loop. *)
Theorem counts_monotone (lp : spec_float) (frames more : list frame) :
  let c := feed (__init__ lp) frames in
  let c' := feed c more in
  (0 ≤ entry_count c ≤ entry_count c' ∧ 0 ≤ exit_count c ≤ exit_count c') ∧
  ∀ line d, entry_count c ≤ entry_count (update_counts_step line c d).1 ∧
            exit_count c ≤ exit_count (update_counts_step line c d).1.
Proof.
  cbn zeta.
  pose proof (feed_lift counts_grow counts_grow_refl counts_grow_trans
                update_counts_step_grow) as Hgrow.
  destruct (Hgrow (__init__ lp) frames) as (He & Hx & _).
  destruct (Hgrow (feed (__init__ lp) frames) more) as (He' & Hx' & _).
  cbn in He, Hx. split; [lia|].
  intros line d.
  destruct (update_counts_step_grow line (feed (__init__ lp) frames) d)
    as (? & ? & _). done.
Qed.

(** C10. A fresh counter has both totals at 0 and no counted track; after
    any sequence of calls [entry_count + exit_count] is the number of
    track_ids in [counted_ids]; and an iteration of the loop that changes a
    total adds 1 to exactly one of them and inserts a track_id that was not
    counted. *)
Theorem counts_match_counted_set (lp : spec_float) (frames : list frame) :
  let c := feed (__init__ lp) frames in
  (entry_count (__init__ lp) = 0 ∧ exit_count (__init__ lp) = 0 ∧
   counted_ids (__init__ lp) = ∅) ∧
  entry_count c + exit_count c = Z.of_nat (size (counted_ids c)) ∧
  ∀ line d,
    let c' := (update_counts_step line c d).1 in
    no_event c c' ∨
    ∃ track_id, det_track_id d = Some track_id ∧
      (track_id ∉ counted_ids c) ∧
      (entry_event track_id c c' ∨ exit_event track_id c c').
Proof.
  cbn zeta. split; [done|]. split.
  - apply (feed_invariant counts_match_counted update_counts_step_match).
    reflexivity.
  - intros line d. apply update_counts_step_effect.
Qed.

Lemma history_insert c th track_id h :
  track_history c = <[track_id := h]> th → history c track_id = h.
Proof. unfold history. intros ->. by rewrite lookup_insert_eq. Qed.

(** C2. Crossing detection, for a track that is not counted yet: the
    iteration returns, and with [h] the history it has just updated, it
    counts nothing when [h] has fewer than two positions; otherwise, with
    [prev] and [curr] the last two positions of [h], it counts an entry iff
    [prev.y < line] and [curr.y >= line], an exit iff [prev.y > line] and
    [curr.y <= line], and nothing otherwise. *)
Theorem crossing_detection (line : Z) (c : FootfallCounter) (track_id : Z)
    (p : position) :
  track_id ∉ counted_ids c →
  let r := update_counts_step line c (mk_det track_id p) in
  let h := history r.1 track_id in
  r.2 = Returned ∧
  h = store_track_history (history c track_id) p ∧
  ((length h < 2)%nat → no_event c r.1) ∧
  ∀ pre prev curr, h = pre ++ [prev; curr] →
    (entry_event track_id c r.1 ↔ prev.2 < line ∧ curr.2 >= line) ∧
    (exit_event track_id c r.1 ↔ prev.2 > line ∧ curr.2 <= line) ∧
    (no_event c r.1 ↔ ¬ (prev.2 < line ∧ curr.2 >= line) ∧
                      ¬ (prev.2 > line ∧ curr.2 <= line)).
Proof.
  intros Hnew. cbn zeta.
  destruct (update_counts_step_mk_det line c track_id p)
    as (c' & -> & _ & Hth & _ & Hshort & Hlong).
  cbn [fst snd]. rewrite (history_insert _ _ _ _ Hth).
  split; [done|]. split; [done|]. split; [auto|].
  intros pre prev curr Hh.
  destruct (Hlong Hnew pre prev curr Hh)
    as [(? & ? & Hev)|[(? & ? & Hev)|(? & ? & Hev)]];
    unfold entry_event, exit_event, no_event in *;
    destruct Hev as (He & Hx & Hc); rewrite He, Hx, Hc;
    repeat split; try lia; try done; intros; exfalso; lia.
Qed.

(** C3. Exact-line tie-break, with the counting line at 50 and a track that
    is not counted yet: after a position with y = 40, a position with
    y = 50 counts an entry; after a position with y = 50, another position
    with y = 50 counts nothing. *)
Theorem exact_line_tie_break (c : FootfallCounter) (track_id : Z)
    (frame_height : Z) (pre : list position) (x x' : Z) :
  counting_line_y (line_position c) frame_height = inr 50 →
  track_id ∉ counted_ids c →
  let r := update_counts c [mk_det track_id (x', 50)] frame_height in
  (history c track_id = pre ++ [(x, 40)] →
   r.2 = Returned ∧ entry_event track_id c r.1) ∧
  (history c track_id = pre ++ [(x, 50)] →
   r.2 = Returned ∧ no_event c r.1).
Proof.
  intros Hline Hnew. cbn zeta. unfold update_counts. rewrite Hline.
  cbn [update_counts_loop].
  destruct (update_counts_step_mk_det 50 c track_id (x', 50))
    as (c' & -> & _ & _ & _ & _ & Hlong).
  cbn [fst snd]. split; intros Hh; (split; [done|]); rewrite Hh in Hlong.
  - destruct (store_track_history_last_two pre (x, 40) (x', 50)) as [pre' E].
    destruct (Hlong Hnew _ _ _ E) as [(_ & _ & ?)|[(? & _)|(Hno & _)]];
      cbn in *; [done | lia | exfalso; apply Hno; lia].
  - destruct (store_track_history_last_two pre (x, 50) (x', 50)) as [pre' E].
    destruct (Hlong Hnew _ _ _ E) as [(? & _)|[(? & _)|(_ & _ & ?)]];
      cbn in *; [lia | lia | done].
Qed.

(** ** Bounded histories *)

Section KeepLast.
Context {A : Type}.
Implicit Types l : list A.

Lemma keep_last_length n l : length (keep_last n l) = Nat.min n (length l).
Proof. unfold keep_last. rewrite length_drop. lia. Qed.

Lemma keep_last_app n l l' :
  keep_last n (keep_last n l ++ l') = keep_last n (l ++ l').
Proof.
  unfold keep_last at 2.
  set (k := (length l - n)%nat).
  assert (Hk : (k ≤ length l)%nat) by lia.
  replace (drop k l ++ l') with (drop k (l ++ l'))
    by (rewrite drop_app_le by done; done).
  unfold keep_last. rewrite drop_drop, length_drop, !length_app.
  f_equal. lia.
Qed.
End KeepLast.

Lemma store_track_history_keep_last old p :
  (length old ≤ TRACK_HISTORY_LENGTH)%nat →
  store_track_history old p = keep_last TRACK_HISTORY_LENGTH (old ++ [p]).
Proof.
  intros Hold. unfold store_track_history, keep_last. cbn zeta.
  rewrite length_app. cbn [length]. unfold TRACK_HISTORY_LENGTH in *.
  case_decide as Hlen.
  - by replace (length old + 1 - 30)%nat with 1%nat by lia.
  - by replace (length old + 1 - 30)%nat with 0%nat by lia.
Qed.

Lemma well_formed_mk_det d :
  well_formed d → ∃ track_id p, d = mk_det track_id p.
Proof. destruct d as [[t|] [p|]]; intros [[] []]; try done. by exists t, p. Qed.

Lemma update_counts_step_history_bounded line c d :
  history_bounded c → history_bounded (update_counts_step line c d).1.
Proof.
  intros Hc. destruct d as [[t|] [p|]].
  2-4: edestruct (update_counts_step_malformed line c) as [e ->];
       [cbn; eauto | done].
  change (mkDetection (Some t) (Some p)) with (mk_det t p).
  intros track_id. unfold history. rewrite update_counts_step_history.
  destruct (decide (t = track_id)) as [->|Hne].
  - rewrite lookup_insert_eq. cbn. apply store_track_history_bounded, Hc.
  - rewrite lookup_insert_ne by done. apply Hc.
Qed.

Section Observed.
Variable track_id : Z.

(** The history of [track_id] holds the last [TRACK_HISTORY_LENGTH] of
    the positions [seen] so far; the iteration adds what the detection
    reports for [track_id]. *)
Lemma update_counts_step_observed line c d seen :
  well_formed d →
  history c track_id = keep_last TRACK_HISTORY_LENGTH seen →
  let r := update_counts_step line c d in
  r.2 = Returned ∧
  history r.1 track_id =
    keep_last TRACK_HISTORY_LENGTH (seen ++ observed track_id [d]).
Proof.
  intros Hwf Hseen. destruct (well_formed_mk_det d Hwf) as (t & p & ->).
  cbn zeta. pose proof (update_counts_step_history line c t p) as Hth.
  destruct (update_counts_step_mk_det line c t p) as (c' & Hstep & _).
  rewrite Hstep in *. cbn [fst snd] in *. split; [done|].
  unfold observed. cbn [omap list_omap mk_det det_track_id det_centroid].
  unfold history at 1. rewrite Hth.
  destruct (decide (Some t = Some track_id)) as [[= ->]|Hne].
  - rewrite lookup_insert_eq. cbn [default].
    rewrite store_track_history_keep_last
      by (rewrite Hseen, keep_last_length; lia).
    rewrite Hseen. apply keep_last_app.
  - rewrite lookup_insert_ne by congruence.
    cbn. rewrite app_nil_r. exact Hseen.
Qed.

Lemma update_counts_loop_observed line c detections seen :
  Forall well_formed detections →
  history c track_id = keep_last TRACK_HISTORY_LENGTH seen →
  let r := update_counts_loop line c detections in
  r.2 = Returned ∧
  history r.1 track_id =
    keep_last TRACK_HISTORY_LENGTH (seen ++ observed track_id detections).
Proof.
  intros Hall. revert c seen.
  induction Hall as [|d rest Hd _ IH]; intros c seen Hseen; cbn zeta.
  { cbn. by rewrite app_nil_r. }
  cbn [update_counts_loop].
  destruct (update_counts_step_observed line c d seen Hd Hseen) as [Hr Hh].
  destruct (update_counts_step line c d) as [c1 o]. cbn [fst snd] in *.
  subst o. destruct (IH c1 _ Hh) as [Hr' Hh']. split; [done|].
  rewrite Hh'. f_equal. rewrite <- app_assoc. f_equal.
  unfold observed. cbn [omap list_omap].
  by destruct (decide (det_track_id d = Some track_id)), (det_centroid d).
Qed.
End Observed.

Lemma update_counts_line_position c detections frame_height :
  line_position (update_counts c detections frame_height).1 = line_position c.
Proof.
  apply (update_counts_lift (λ c c', line_position c' = line_position c));
    [done | congruence | apply update_counts_step_line_position].
Qed.

Lemma run_observed track_id lp c frames seen :
  Forall (frame_ok lp) frames →
  line_position c = lp →
  history c track_id = keep_last TRACK_HISTORY_LENGTH seen →
  (run c frames).2 = Returned ∧
  feed c frames = (run c frames).1 ∧
  history (run c frames).1 track_id =
    keep_last TRACK_HISTORY_LENGTH (seen ++ observations track_id frames).
Proof.
  intros Hall. revert c seen.
  induction Hall as [|[ds fh] rest [Hwf [y Hy]] _ IH]; intros c seen Hlp Hseen.
  { cbn. by rewrite app_nil_r. }
  cbn [run feed]. cbn [fst snd] in *.
  pose proof (update_counts_line_position c ds fh) as Hlp'.
  unfold update_counts in *. rewrite Hlp, Hy in *.
  destruct (update_counts_loop_observed track_id y c ds seen Hwf Hseen)
    as [Hr Hh].
  destruct (update_counts_loop y c ds) as [c1 o]. cbn [fst snd] in *. subst o.
  destruct (IH c1 _ Hlp' Hh) as (Hr' & Hf & Hh').
  split; [done|]. split; [done|].
  rewrite Hh'. unfold observations. cbn [map concat fst].
  by rewrite <- app_assoc.
Qed.

(** C4. After any sequence of calls no track's history holds more than
    [TRACK_HISTORY_LENGTH] = 30 positions. When the frames are well formed,
    the run returns and the history of a track is the last 30 of the
    positions observed for it, in the order they were appended; after
    30 + 5 of them it has length 30 and is all but the first 5. *)
Theorem history_bounded_fifo (lp : spec_float) (frames : list frame)
    (track_id : Z) :
  (length (history (feed (__init__ lp) frames) track_id)
     ≤ TRACK_HISTORY_LENGTH)%nat ∧
  (Forall (frame_ok lp) frames →
   let r := run (__init__ lp) frames in
   let seen := observations track_id frames in
   r.2 = Returned ∧
   history r.1 track_id = keep_last TRACK_HISTORY_LENGTH seen ∧
   (length seen = (TRACK_HISTORY_LENGTH + 5)%nat →
    length (history r.1 track_id) = TRACK_HISTORY_LENGTH ∧
    history r.1 track_id = drop 5 seen)).
Proof.
  split.
  - apply (feed_invariant history_bounded update_counts_step_history_bounded).
    intros t. unfold history, __init__. cbn [track_history].
    rewrite lookup_empty. cbn. lia.
  - intros Hok. cbn zeta.
    destruct (run_observed track_id lp (__init__ lp) frames [] Hok)
      as (Hr & _ & Hh); [done | done |].
    rewrite app_nil_l in Hh. split; [done|]. split; [done|].
    intros Hlen. rewrite Hh. split.
    + rewrite keep_last_length. lia.
    + unfold keep_last. rewrite Hlen. f_equal.
Qed.

(** ** Runs at one counting line *)

Lemma update_counts_loop_app line c ds ds' :
  update_counts_loop line c (ds ++ ds') =
    match update_counts_loop line c ds with
    | (c', Returned) => update_counts_loop line c' ds'
    | (c', Raised e) => (c', Raised e)
    end.
Proof.
  revert c. induction ds as [|d rest IH]; intros c; cbn; [done|].
  destruct (update_counts_step line c d) as [c1 [|e]]; [apply IH | done].
Qed.

(** Frames whose heights all give the same line are handled like one long
    list of detections. *)
Lemma run_same_line lp y c frames :
  Forall (λ f : frame, counting_line_y lp f.2 = inr y) frames →
  line_position c = lp →
  run c frames = update_counts_loop y c (concat (map fst frames)).
Proof.
  intros Hall. revert c.
  induction Hall as [|[ds fh] rest Hy _ IH]; intros c Hlp; cbn; [done|].
  rewrite update_counts_loop_app.
  pose proof (update_counts_line_position c ds fh) as Hlp'.
  unfold update_counts in *. cbn [snd] in Hy. rewrite Hlp, Hy in *.
  destruct (update_counts_loop y c ds) as [c1 [|e]]; [|done].
  apply IH. exact Hlp'.
Qed.

(** Replaces the run of the frames for the positions [ps] by the loop over
    their detections, and evaluates it. *)
Ltac run_frames Hrun ps :=
  lazymatch goal with
  | |- context [run ?c (map ?seen ps)] =>
    rewrite !(Hrun c ps) by reflexivity;
    lazymatch goal with
    | |- context [update_counts_loop ?y c ?ds] =>
      let v := fresh "v" in
      set (v := update_counts_loop y c ds);
      vm_compute in v; subst v; cbn [fst snd]
    end
  end.

(** C6. End to end, with the counting line at 100: track 7 seen at
    y = 20, 50, 90, 110, 130 in five frames. The first three frames count
    nothing, the fourth (90 to 110) counts one entry, the fifth nothing:
    [entry_count] = 1 and [exit_count] = 0. Going back up afterwards, to
    y = 80 (or by 130 and then 80), counts nothing, and the occupancy
    stays 1. *)
Theorem end_to_end_scenario (lp : spec_float) (frame_height : Z)
    (x1 x2 x3 x4 x5 x6 x7 : Z) :
  counting_line_y lp frame_height = inr 100 →
  let seen := λ p : position, ([mk_det 7 p], frame_height) in
  let r3 := run (__init__ lp) (map seen [(x1, 20); (x2, 50); (x3, 90)]) in
  let r4 := run r3.1 [seen (x4, 110)] in
  let r5 := run r4.1 [seen (x5, 130)] in
  let r6 := run r5.1 [seen (x6, 80)] in
  let r7 := run r5.1 [seen (x6, 130); seen (x7, 80)] in
  (r3.2 = Returned ∧ entry_count r3.1 = 0 ∧ exit_count r3.1 = 0) ∧
  (r4.2 = Returned ∧ entry_event 7 r3.1 r4.1) ∧
  (r5.2 = Returned ∧ entry_count r5.1 = 1 ∧ exit_count r5.1 = 0) ∧
  (r6.2 = Returned ∧ no_event r5.1 r6.1 ∧ occupancy r6.1 = 1) ∧
  (r7.2 = Returned ∧ no_event r5.1 r7.1 ∧ occupancy r7.1 = 1).
Proof.
  intros Hline seen r3 r4 r5 r6 r7.
  assert (Hrun : ∀ c ps, line_position c = lp →
            run c (map seen ps) =
              update_counts_loop 100 c (map (mk_det 7) ps)).
  { intros c ps Hlp. rewrite (run_same_line lp 100); [|  | done].
    - f_equal. induction ps as [|p ps IH]; cbn; [done | by rewrite IH].
    - apply Forall_forall. intros f [p [-> _]]%list_elem_of_fmap. done. }
  subst r3 r4 r5 r6 r7.
change [seen (x4, 110)] with (map seen [(x4, 110)]).
change [seen (x5, 130)] with (map seen [(x5, 130)]).
change [seen (x6, 80)] with (map seen [(x6, 80)]).
change [seen (x6, 130); seen (x7, 80)]
  with (map seen [(x6, 130); (x7, 80)]).
run_frames Hrun [(x1, 20); (x2, 50); (x3, 90)].
run_frames Hrun [(x4, 110)].
run_frames Hrun [(x5, 130)].
run_frames Hrun [(x6, 80)].
run_frames Hrun [(x6, 130); (x7, 80)].
unfold entry_event, no_event, occupancy. cbn.
repeat split; try reflexivity; set_solver.
Qed.

(** ** The counting line *)

Lemma LINE_POSITION_half :
  LINE_POSITION = binary_normalize prec emax 1 (-1) false.
Proof. reflexivity. Qed.

Lemma int_of_float_truncation p y :
  int_of_float p = inr y → truncation_of p y.
Proof.
  destruct p as [s|s| |s m e]; cbn; try done; intros [= <-]; [done|].
  exists (Z.shiftl (Z.pos m) e). split; [done|].
  case_decide as He.
  - by apply Z.shiftl_mul_pow2.
  - rewrite Z.shiftl_div_pow2 by lia.
    assert (Hd : 0 < 2 ^ (- e)) by (apply Z.pow_pos_nonneg; lia).
    pose proof (Z.mul_div_le (Z.pos m) _ Hd).
    pose proof (Z.mul_succ_div_gt (Z.pos m) _ Hd).
    lia.
Qed.

Lemma counting_line_y_truncation lp frame_height y :
  counting_line_y lp frame_height = inr y →
  ∃ h, float_of_int frame_height = inr h ∧
       truncation_of (SFmul prec emax h lp) y.
Proof.
  unfold counting_line_y.
  destruct (float_of_int frame_height) as [e|h]; [done|].
  intros Hy. exists h. split; [done|]. by apply int_of_float_truncation.
Qed.

Lemma counting_line_y_error lp frame_height e :
  counting_line_y lp frame_height = inl e →
  e = OverflowError ∨ e = ValueError.
Proof.
  unfold counting_line_y, float_of_int.
  destruct (binary_normalize _ _ _ _ _); [| intros [= <-]; auto | |].
  all: match goal with |- int_of_float ?p = _ → _ => destruct p end;
    cbn; intros [= <-]; auto.
Qed.

Lemma counting_line_y_zero lp :
  float_is_finite lp = true → counting_line_y lp 0 = inr 0.
Proof. by destruct lp. Qed.

(** ** Malformed detections *)

Lemma update_counts_step_key_error line c d :
  ¬ well_formed d →
  ∃ key, update_counts_step line c d = (c, Raised (KeyError key)).
Proof.
  unfold well_formed, update_counts_step.
  destruct (det_track_id d), (det_centroid d); intros Hbad; eauto.
  exfalso. apply Hbad. split; eauto.
Qed.

Lemma update_counts_loop_returns line c detections :
  Forall well_formed detections →
  (update_counts_loop line c detections).2 = Returned.
Proof.
  intros Hall. revert c.
  induction Hall as [|d rest Hd _ IH]; intros c; cbn; [done|].
  destruct (well_formed_mk_det d Hd) as (t & p & ->).
  destruct (update_counts_step_mk_det line c t p) as (c' & -> & _).
  apply IH.
Qed.

(** C7, as the specification states it, fails: the line is not the rounded
    product. With the default fraction 0.5 and a frame 3 pixels high the
    code uses line 1 where rounding 1.5 gives 2; with fraction 0.75 and
    height 5 it uses 3 where rounding 3.75 gives 4. *)
Lemma counting_line_not_rounded :
  counting_line_y LINE_POSITION 3 = inr 1 ∧
  spec_counting_line_y LINE_POSITION 3 = inr 2 ∧
  counting_line_y float_0_75 5 = inr 3 ∧
  spec_counting_line_y float_0_75 5 = inr 4.
Proof. repeat split; vm_compute; reflexivity. Qed.

(** C7, amended. In every call of [update_counts] the line used for the
    detections is [int(frame_height * line_position)], the float product
    with its fractional part dropped, for the fraction of the counter and
    the frame height given to this call; the counter keeps the fraction
    and no line from one call to the next. *)
Theorem counting_line_truncated_each_frame (c : FootfallCounter)
    (detections : list detection) (frame_height : Z) :
  (∀ y, counting_line_y (line_position c) frame_height = inr y →
     (∃ h, float_of_int frame_height = inr h ∧
           truncation_of (SFmul prec emax h (line_position c)) y) ∧
     update_counts c detections frame_height =
       update_counts_loop y c detections) ∧
  line_position (update_counts c detections frame_height).1 = line_position c.
Proof.
  split; [|apply update_counts_line_position].
  intros y Hy. split; [by apply counting_line_y_truncation|].
  unfold update_counts. by rewrite Hy.
Qed.

(** C8, as the specification states it, fails: nothing checks the
    configuration. A counter built with the fraction 1.5 is accepted, and a
    call with a frame 100 pixels high returns, with the line at 150; a call
    with frame height 0 returns too, with the line at 0. *)
Lemma degenerate_configuration_accepted :
  SFltb float_1_5 (binary_normalize prec emax 1 0 false) = false ∧
  update_counts (__init__ float_1_5) [] 100
    = (__init__ float_1_5, Returned) ∧
  counting_line_y float_1_5 100 = inr 150 ∧
  update_counts (__init__ LINE_POSITION) [] 0
    = (__init__ LINE_POSITION, Returned) ∧
  counting_line_y LINE_POSITION 0 = inr 0.
Proof. repeat split; vm_compute; reflexivity. Qed.

(** C8, amended. The constructor stores any fraction and starts from empty
    state; [update_counts] goes on to the detections whenever
    [int(frame_height * line_position)] has a value, whatever that value;
    it raises for the configuration only when the product is infinite or
    not a number ([OverflowError], [ValueError]), before it handles any
    detection; frame height 0 gives line 0 for every finite fraction. *)
Theorem configuration_not_validated (lp : spec_float)
    (detections : list detection) (frame_height : Z) :
  __init__ lp = mkCounter lp ∅ ∅ 0 0 ∧
  (∀ y, counting_line_y lp frame_height = inr y →
     update_counts (__init__ lp) detections frame_height =
       update_counts_loop y (__init__ lp) detections) ∧
  (∀ e, counting_line_y lp frame_height = inl e →
     update_counts (__init__ lp) detections frame_height =
       (__init__ lp, Raised e) ∧
     (e = OverflowError ∨ e = ValueError)) ∧
  (float_is_finite lp = true →
     update_counts (__init__ lp) detections 0 =
       update_counts_loop 0 (__init__ lp) detections).
Proof.
  split; [done|]. unfold update_counts. cbn [line_position __init__].
  split; [by intros y ->|]. split.
  - intros e He. rewrite He. split; [done|].
    by apply counting_line_y_error in He.
  - intros Hfin. by rewrite counting_line_y_zero.
Qed.

(** C9, as the specification states it, fails: a malformed detection ends
    the whole call. Track 1 was seen at y = 40 and the line is at 50; a
    frame with a detection without centroid followed by track 1 at y = 60
    raises and counts nothing, where the frame without the malformed
    detection counts an entry. *)
Lemma malformed_detection_aborts_frame :
  let c := (update_counts (__init__ LINE_POSITION) [mk_det 1 (0, 40)] 100).1 in
  let bad := mkDetection (Some 2) None in
  let good := mk_det 1 (0, 60) in
  filter well_formed [bad; good] = [good] ∧
  update_counts c [bad; good] 100 = (c, Raised (KeyError "centroid")) ∧
  entry_count (update_counts c [bad; good] 100).1 = 0 ∧
  history (update_counts c [bad; good] 100).1 1 = [(0, 40)] ∧
  entry_count (update_counts c [good] 100).1 = 1 ∧
  history (update_counts c [good] 100).1 1 = [(0, 40); (0, 60)].
Proof. repeat split; vm_compute; reflexivity. Qed.

(** C9, amended. A detection that lacks a key raises [KeyError] and ends
    the call: the detections before it in the list have been handled, it
    and the detections after it have not, and the state is the one that the
    detections before it alone would leave. *)
Theorem malformed_detection_ends_call (c : FootfallCounter)
    (before after : list detection) (bad : detection)
    (frame_height y : Z) :
  counting_line_y (line_position c) frame_height = inr y →
  Forall well_formed before →
  ¬ well_formed bad →
  let r := update_counts c (before ++ bad :: after) frame_height in
  (∃ key, r.2 = Raised (KeyError key)) ∧
  update_counts c before frame_height = (r.1, Returned).
Proof.
  intros Hy Hwf Hbad. cbn zeta. unfold update_counts. rewrite Hy.
  rewrite update_counts_loop_app.
  pose proof (update_counts_loop_returns y c before Hwf) as Hr.
  destruct (update_counts_loop y c before) as [c1 o]. cbn [snd] in Hr. subst o.
  cbn [update_counts_loop].
  destruct (update_counts_step_key_error y c1 bad Hbad) as [key ->].
  cbn [fst snd]. split; [by exists key | done].
Qed.

(** * The claims on sample runs *)

Example sample_crossed_contribution :
  contribution 7 (__init__ LINE_POSITION)
    (map sample_frame [(0, 20); (0, 50); (0, 90); (0, 110); (0, 130);
                       (0, 80); (0, 120)]) = 1.
Proof. vm_compute. reflexivity. Qed.

Lemma at_most_once_witness :
  7 ∈ counted_ids sample_crossed ∧
  contribution 7 sample_crossed (map sample_frame [(0, 80); (0, 120)]) = 0 ∧
  no_event sample_crossed
    (update_counts sample_crossed [mk_det 7 (0, 80)] 200).1.
Proof.
  assert (Hin : 7 ∈ counted_ids sample_crossed) by (vm_compute; reflexivity).
  destruct (at_most_once 7 sample_crossed
              (map sample_frame [(0, 80); (0, 120)])) as [_ Hcounted].
  destruct (Hcounted Hin) as [Hzero Hsame].
  split; [exact Hin|]. split; [exact Hzero|].
  apply Hsame. repeat constructor.
Defined.

Lemma crossing_detection_witness :
  let c := (update_counts (__init__ LINE_POSITION) [mk_det 7 (0, 90)] 200).1 in
  let r := update_counts_step 100 c (mk_det 7 (0, 110)) in
  (7 ∉ counted_ids c) ∧ r.2 = Returned ∧
  history r.1 7 = [(0, 90); (0, 110)] ∧ entry_event 7 c r.1.
Proof.
  intros c r.
  assert (Hnew : 7 ∉ counted_ids c) by (vm_compute; discriminate).
  destruct (crossing_detection 100 c 7 (0, 110) Hnew)
    as (Hr & Hh & _ & Hlast).
  fold r in Hr, Hh, Hlast.
  assert (E : history r.1 7 = [] ++ [(0, 90); (0, 110)])
    by (vm_compute; reflexivity).
  split; [exact Hnew|]. split; [exact Hr|]. split; [exact E|].
  apply (Hlast _ _ _ E). cbn. lia.
Defined.

Lemma exact_line_tie_break_witness :
  let c := (update_counts (__init__ LINE_POSITION) [mk_det 7 (0, 40)] 100).1 in
  let r := update_counts c [mk_det 7 (0, 50)] 100 in
  counting_line_y (line_position c) 100 = inr 50 ∧ (7 ∉ counted_ids c) ∧
  history c 7 = [] ++ [(0, 40)] ∧ r.2 = Returned ∧ entry_event 7 c r.1.
Proof.
  intros c r.
  assert (Hline : counting_line_y (line_position c) 100 = inr 50)
    by (vm_compute; reflexivity).
  assert (Hnew : 7 ∉ counted_ids c) by (vm_compute; discriminate).
  assert (Hh : history c 7 = [] ++ [(0, 40)]) by (vm_compute; reflexivity).
  destruct (exact_line_tie_break c 7 100 [] 0 0 Hline Hnew) as [Hentry _].
  repeat (split; [assumption|]). exact (Hentry Hh).
Defined.

Lemma sample_long_run_ok : Forall (frame_ok LINE_POSITION) sample_long_run.
Proof.
  apply Forall_fmap, Forall_forall. intros n _. split.
  - repeat constructor; by eexists.
  - exists 100. reflexivity.
Defined.

Lemma history_bounded_fifo_witness :
  let r := run (__init__ LINE_POSITION) sample_long_run in
  let seen := observations 7 sample_long_run in
  Forall (frame_ok LINE_POSITION) sample_long_run ∧
  length seen = (TRACK_HISTORY_LENGTH + 5)%nat ∧
  r.2 = Returned ∧
  length (history r.1 7) = TRACK_HISTORY_LENGTH ∧
  history r.1 7 = drop 5 seen.
Proof.
  intros r seen.
  destruct (history_bounded_fifo LINE_POSITION sample_long_run 7)
    as [_ Hfifo].
  destruct (Hfifo sample_long_run_ok) as (Hr & _ & Hlast).
  assert (Hlen : length seen = (TRACK_HISTORY_LENGTH + 5)%nat)
    by (vm_compute; reflexivity).
  destruct (Hlast Hlen) as [Hl Hd].
  split; [exact sample_long_run_ok|]. split; [exact Hlen|].
  split; [exact Hr|]. split; [exact Hl | exact Hd].
Defined.

Lemma end_to_end_scenario_witness :
  counting_line_y LINE_POSITION 200 = inr 100 ∧
  entry_count sample_crossed = 1 ∧ exit_count sample_crossed = 0.
Proof.
  assert (Hline : counting_line_y LINE_POSITION 200 = inr 100)
    by (vm_compute; reflexivity).
  destruct (end_to_end_scenario LINE_POSITION 200 0 0 0 0 0 0 0 Hline)
    as (_ & _ & (_ & He & Hx) & _).
  split; [exact Hline|]. split; [exact He | exact Hx].
Defined.

Lemma counting_line_truncated_each_frame_witness :
  counting_line_y LINE_POSITION 3 = inr 1 ∧
  truncation_of (SFmul prec emax (binary_normalize prec emax 3 0 false)
                   LINE_POSITION) 1 ∧
  update_counts (__init__ LINE_POSITION) [mk_det 7 (0, 0)] 3 =
    update_counts_loop 1 (__init__ LINE_POSITION) [mk_det 7 (0, 0)].
Proof.
  assert (Hline : counting_line_y (line_position (__init__ LINE_POSITION)) 3
                  = inr 1) by (vm_compute; reflexivity).
  destruct (counting_line_truncated_each_frame (__init__ LINE_POSITION)
              [mk_det 7 (0, 0)] 3) as [Heach _].
  destruct (Heach 1 Hline) as [(h & Hh & Htrunc) Hloop].
  injection Hh as <-.
  split; [exact Hline|]. split; [exact Htrunc | exact Hloop].
Defined.

Lemma configuration_not_validated_witness :
  counting_line_y float_1_5 100 = inr 150 ∧
  float_is_finite float_1_5 = true ∧
  update_counts (__init__ float_1_5) [mk_det 7 (0, 0)] 100 =
    update_counts_loop 150 (__init__ float_1_5) [mk_det 7 (0, 0)] ∧
  update_counts (__init__ float_1_5) [mk_det 7 (0, 0)] 0 =
    update_counts_loop 0 (__init__ float_1_5) [mk_det 7 (0, 0)].
Proof.
  assert (Hline : counting_line_y float_1_5 100 = inr 150)
    by (vm_compute; reflexivity).
  assert (Hfin : float_is_finite float_1_5 = true) by reflexivity.
  destruct (configuration_not_validated float_1_5 [mk_det 7 (0, 0)] 100)
    as (_ & Hgo & _ & Hzero).
  split; [exact Hline|]. split; [exact Hfin|].
  split; [exact (Hgo 150 Hline) | exact (Hzero Hfin)].
Defined.

Lemma malformed_detection_ends_call_witness :
  let c := __init__ LINE_POSITION in
  let bad := mkDetection (Some 2) None in
  let r := update_counts c ([mk_det 1 (0, 40)] ++ bad :: [mk_det 1 (0, 60)])
             100 in
  counting_line_y (line_position c) 100 = inr 50 ∧
  Forall well_formed [mk_det 1 (0, 40)] ∧ ¬ well_formed bad ∧
  (∃ key, r.2 = Raised (KeyError key)) ∧
  update_counts c [mk_det 1 (0, 40)] 100 = (r.1, Returned).
Proof.
  intros c bad r.
  assert (Hline : counting_line_y (line_position c) 100 = inr 50)
    by (vm_compute; reflexivity).
  assert (Hwf : Forall well_formed [mk_det 1 (0, 40)])
    by (repeat constructor; by eexists).
  assert (Hbad : ¬ well_formed bad) by (intros [_ [p Hp]]; discriminate Hp).
  destruct (malformed_detection_ends_call c [mk_det 1 (0, 40)]
              [mk_det 1 (0, 60)] bad 100 50 Hline Hwf Hbad) as [Hkey Hstate].
  repeat (split; [assumption|]). exact Hstate.
Defined.

(** * Further properties of [update_counts] *)

(** An iteration on a detection with both keys: store the centroid, then,
    unless the track is counted, count what the last two positions show. *)
Lemma update_counts_step_parts line c track_id p :
  update_counts_step line c (mk_det track_id p) =
    (let h := store_track_history (history c track_id) p in
     let c1 := with_history c track_id h in
     if decide (track_id ∈ counted_ids c) then c1
     else count_crossing track_id (crossing_of line h) c1, Returned).
Proof.
  unfold update_counts_step, crossing_of, with_history, count_crossing.
  cbn [det_track_id det_centroid mk_det]. cbv zeta.
  set (h := store_track_history (history c track_id) p).
  destruct (decide ((2 ≤ length h)%nat ∧ track_id ∉ counted_ids c))
    as [[Hlen Hnew]|Hno].
  - destruct (split_last_two h Hlen) as (pre & a & b & Hh).
    assert (Hprev : py_index_from_end h 2 = Some a)
      by (rewrite Hh; apply py_index_from_end_second_last).
    assert (Hcurr : py_index_from_end h 1 = Some b).
    { rewrite Hh. change [a; b] with ([a] ++ [b]). rewrite app_assoc.
      apply py_index_from_end_last. }
    rewrite Hprev, Hcurr. rewrite decide_False by done.
    by destruct ((a.2 <? line) && (line <=? b.2)),
                ((line <? a.2) && (b.2 <=? line)).
  - destruct (decide (track_id ∈ counted_ids c)) as [Hin|Hnew]; [done|].
    assert (Hshort : py_index_from_end h 2 = None).
    { unfold py_index_from_end. rewrite decide_False; [done|].
      intros Hlen. apply Hno. done. }
    by rewrite Hshort.
Qed.

Lemma update_counts_step_cases line c d :
  (∃ e, update_counts_step line c d = (c, Raised e) ∧ ¬ well_formed d) ∨
  (∃ t p, d = mk_det t p ∧
     update_counts_step line c d =
       (let h := store_track_history (history c t) p in
        let c1 := with_history c t h in
        if decide (t ∈ counted_ids c) then c1
        else count_crossing t (crossing_of line h) c1, Returned)).
Proof.
  destruct (decide (well_formed d)) as [Hwf|Hbad].
  - right. destruct (well_formed_mk_det d Hwf) as (t & p & ->).
    exists t, p. split; [done | apply update_counts_step_parts].
  - left. destruct (update_counts_step_key_error line c d Hbad) as [k Hk].
    eauto.
Qed.

Lemma store_track_history_nonempty old p :
  (1 ≤ length (store_track_history old p))%nat.
Proof.
  rewrite store_track_history_length. unfold TRACK_HISTORY_LENGTH. lia.
Qed.

Lemma store_track_history_grows old p :
  (2 ≤ length old)%nat → (2 ≤ length (store_track_history old p))%nat.
Proof.
  rewrite store_track_history_length. unfold TRACK_HISTORY_LENGTH. lia.
Qed.

Lemma crossing_of_short line h :
  (length h < 2)%nat → crossing_of line h = NoCrossing.
Proof.
  intros Hlen. unfold crossing_of, py_index_from_end.
  by rewrite decide_False by lia.
Qed.

Lemma count_crossing_fields t k c :
  line_position (count_crossing t k c) = line_position c ∧
  track_history (count_crossing t k c) = track_history c ∧
  (counted_ids (count_crossing t k c) = counted_ids c ∧ k = NoCrossing ∨
   counted_ids (count_crossing t k c) = {[t]} ∪ counted_ids c ∧
   k ≠ NoCrossing).
Proof. destruct k; cbn; auto. Qed.

Lemma update_counts_step_state_ok line c d :
  state_ok c → state_ok (update_counts_step line c d).1.
Proof.
  intros [Hlen Hcounted].
  destruct (update_counts_step_cases line c d)
    as [(e & -> & _)|(t & p & -> & ->)]; [done|].
  cbn zeta. cbn [fst].
  set (h := store_track_history (history c t) p).
  assert (Hh : (1 ≤ length h ≤ TRACK_HISTORY_LENGTH)%nat).
  { split; [apply store_track_history_nonempty|].
    apply store_track_history_bounded. unfold history.
    destruct (track_history c !! t) as [old|] eqn:E; cbn; [|lia].
    by apply (Hlen t). }
  assert (Hhist : ∀ t', history (with_history c t h) t' =
                        if decide (t = t') then h else history c t').
  { intros t'. unfold history, with_history. cbn [track_history].
    rewrite lookup_insert. by case_decide. }
  assert (Hok1 : state_ok (with_history c t h)).
  { split.
    - intros t' h'. cbn [with_history track_history].
      rewrite lookup_insert. case_decide; [by intros [= <-] | apply Hlen].
    - intros t' Hin. rewrite Hhist. case_decide as E; [subst t'|by apply Hcounted].
      apply store_track_history_grows. by apply Hcounted. }
  case_decide as Hin; [done|].
  destruct (count_crossing_fields t (crossing_of line h) (with_history c t h))
    as (_ & Hth & [[Hc _]|[Hc Hk]]).
  - destruct Hok1 as [H1 H2]. split.
    + intros t' h'. rewrite Hth. apply H1.
    + intros t'. unfold history. rewrite Hth, Hc. apply H2.
  - destruct Hok1 as [H1 H2]. split.
    + intros t' h'. rewrite Hth. apply H1.
    + intros t'. unfold history at 1. rewrite Hth, Hc.
      fold (history (with_history c t h) t').
      intros [->%elem_of_singleton|Hin']%elem_of_union; [|by apply H2].
      rewrite Hhist, decide_True by done.
      destruct (decide (2 ≤ length h)%nat) as [|Hshort]; [done|].
      rewrite crossing_of_short in Hk by lia. done.
Qed.

Lemma update_counts_step_state_grows line c d :
  state_grows c (update_counts_step line c d).1.
Proof.
  unfold state_grows.
  destruct (update_counts_step_cases line c d)
    as [(e & -> & _)|(t & p & -> & ->)]; [done|].
  cbn zeta. cbn [fst].
  set (h := store_track_history (history c t) p).
  assert (Hdom : dom (track_history c) ⊆ dom (<[t := h]> (track_history c)))
    by (rewrite dom_insert_L; set_solver).
  case_decide as Hin; [done|].
  destruct (count_crossing_fields t (crossing_of line h) (with_history c t h))
    as (_ & -> & [[-> _]|[-> _]]); cbn; split; set_solver.
Qed.

Lemma state_grows_refl c : state_grows c c.
Proof. split; set_solver. Qed.

Lemma state_grows_trans c1 c2 c3 :
  state_grows c1 c2 → state_grows c2 c3 → state_grows c1 c3.
Proof. intros [] []. split; set_solver. Qed.

(** X1. After any sequence of calls on a fresh counter: every stored
    history has between 1 and 30 positions, every counted track has a
    history of at least two positions, and [entry_count + exit_count] is at
    most the number of tracks that have a history. *)
Theorem stored_state_invariant (lp : spec_float) (frames : list frame) :
  let c := feed (__init__ lp) frames in
  (∀ t h, track_history c !! t = Some h →
     (1 ≤ length h ≤ TRACK_HISTORY_LENGTH)%nat) ∧
  (∀ t, t ∈ counted_ids c → (2 ≤ length (history c t))%nat) ∧
  entry_count c + exit_count c ≤ Z.of_nat (size (dom (track_history c))).
Proof.
  cbn zeta. set (c := feed (__init__ lp) frames).
  assert (Hok : state_ok c).
  { apply (feed_invariant state_ok update_counts_step_state_ok).
    split; [intros t h; cbn; by rewrite lookup_empty | set_solver]. }
  assert (Hsum : counts_match_counted c).
  { apply (feed_invariant counts_match_counted update_counts_step_match).
    reflexivity. }
  destruct Hok as [Hlen Hcounted]. split; [done|]. split; [done|].
  rewrite Hsum. apply inj_le, subseteq_size.
  intros t Hin. apply elem_of_dom. specialize (Hcounted t Hin).
  unfold history in Hcounted.
  destruct (track_history c !! t); [done | cbn in Hcounted; lia].
Qed.

(** X2. Over any sequence of calls, from any state, no track_id leaves
    [counted_ids] and no key leaves [track_history]. *)
Theorem counted_and_histories_kept (c : FootfallCounter)
    (frames : list frame) :
  counted_ids c ⊆ counted_ids (feed c frames) ∧
  dom (track_history c) ⊆ dom (track_history (feed c frames)).
Proof.
  apply (feed_lift state_grows state_grows_refl state_grows_trans
           update_counts_step_state_grows).
Qed.

Lemma update_counts_loop_other_tracks line c detections t :
  t ∉ track_ids detections →
  let c' := (update_counts_loop line c detections).1 in
  track_history c' !! t = track_history c !! t ∧
  (t ∈ counted_ids c' ↔ t ∈ counted_ids c).
Proof.
  revert c. induction detections as [|d rest IH]; intros c Hnot; [done|].
  cbn zeta. cbn [update_counts_loop].
  destruct (update_counts_step_cases line c d)
    as [(e & -> & _)|(t' & p & -> & ->)]; [done|].
  unfold track_ids in Hnot. cbn in Hnot.
  apply not_elem_of_cons in Hnot as [Hne Hrest].
  cbn zeta. set (h := store_track_history (history c t') p).
  set (c1 := if decide (t' ∈ counted_ids c) then with_history c t' h
             else count_crossing t' (crossing_of line h)
                    (with_history c t' h)).
  destruct (IH c1 Hrest) as [Hth Hc]. cbn zeta in Hth, Hc.
  rewrite Hth, Hc.
  assert (Hth1 : track_history c1 = <[t' := h]> (track_history c)).
  { subst c1. case_decide; [done|]. by destruct (crossing_of line h). }
  assert (Hc1 : counted_ids c1 = counted_ids c ∨
                counted_ids c1 = {[t']} ∪ counted_ids c).
  { subst c1. case_decide; [by left|].
    destruct (crossing_of line h); cbn; auto. }
  rewrite Hth1, lookup_insert_ne by done. split; [done|].
  destruct Hc1 as [->| ->]; set_solver.
Qed.

(** X3. A call changes nothing for a track that none of its detections
    carries: its history and whether it is counted stay as they were. *)
Theorem other_tracks_untouched (c : FootfallCounter)
    (detections : list detection) (frame_height : Z) (t : Z) :
  t ∉ track_ids detections →
  let c' := (update_counts c detections frame_height).1 in
  track_history c' !! t = track_history c !! t ∧
  (t ∈ counted_ids c' ↔ t ∈ counted_ids c).
Proof.
  intros Hnot. unfold update_counts.
  destruct (counting_line_y _ _) as [e|y]; [done|].
  by apply update_counts_loop_other_tracks.
Qed.

(** ** The order of the detections of a frame *)

(** The crossing an iteration counts for a detection with both keys. *)
Lemma update_counts_step_counted line c t p :
  ∃ k, (update_counts_step line c (mk_det t p)).1 =
         count_crossing t k
           (with_history c t (store_track_history (history c t) p)) ∧
       k = (if decide (t ∈ counted_ids c) then NoCrossing
            else crossing_of line (store_track_history (history c t) p)).
Proof.
  rewrite update_counts_step_parts. cbn zeta. cbn [fst].
  case_decide; eexists; split; try reflexivity. done.
Qed.

Lemma count_crossing_commute c t1 h1 k1 t2 h2 k2 :
  t1 ≠ t2 →
  count_crossing t2 k2
    (with_history (count_crossing t1 k1 (with_history c t1 h1)) t2 h2) =
  count_crossing t1 k1
    (with_history (count_crossing t2 k2 (with_history c t2 h2)) t1 h1).
Proof.
  intros Hne.
  assert (Hth : <[t2 := h2]> (<[t1 := h1]> (track_history c)) =
                <[t1 := h1]> (<[t2 := h2]> (track_history c)))
    by (by apply insert_insert_ne).
  assert (Hs : ({[t2]} ∪ ({[t1]} ∪ counted_ids c) : gset Z) =
               {[t1]} ∪ ({[t2]} ∪ counted_ids c)) by set_solver.
  destruct k1, k2; unfold count_crossing, with_history;
    cbn [counted_ids line_position track_history entry_count exit_count];
    rewrite ?Hth, ?Hs; reflexivity.
Qed.

Lemma update_counts_step_commute line c t1 p1 t2 p2 :
  t1 ≠ t2 →
  (update_counts_step line
     (update_counts_step line c (mk_det t1 p1)).1 (mk_det t2 p2)).1 =
  (update_counts_step line
     (update_counts_step line c (mk_det t2 p2)).1 (mk_det t1 p1)).1.
Proof.
  intros Hne.
  assert (Hother : ∀ c ta pa tb, ta ≠ tb →
            let c' := (update_counts_step line c (mk_det ta pa)).1 in
            history c' tb = history c tb ∧
            (tb ∈ counted_ids c' ↔ tb ∈ counted_ids c)).
  { intros c0 ta pa tb Hab. cbn zeta.
    destruct (update_counts_loop_other_tracks line c0 [mk_det ta pa] tb)
      as [Hth Hc].
    { unfold track_ids. cbn. set_solver. }
    cbn zeta in Hth, Hc. cbn [update_counts_loop] in Hth, Hc.
    destruct (update_counts_step line c0 (mk_det ta pa)) as [c1 [|e]];
      cbn [fst] in *; unfold history; by rewrite Hth. }
  destruct (Hother c t1 p1 t2 Hne) as [Hh2 Hc2].
  destruct (Hother c t2 p2 t1 (not_eq_sym Hne)) as [Hh1 Hc1].
  cbn zeta in *.
  destruct (update_counts_step_counted line c t1 p1) as (k1 & E1 & Hk1).
  destruct (update_counts_step_counted line c t2 p2) as (k2 & E2 & Hk2).
  destruct (update_counts_step_counted line
              (update_counts_step line c (mk_det t1 p1)).1 t2 p2)
    as (k2' & E2' & Hk2').
  destruct (update_counts_step_counted line
              (update_counts_step line c (mk_det t2 p2)).1 t1 p1)
    as (k1' & E1' & Hk1').
  rewrite E2', E1', Hh2, Hh1.
  assert (k2' = k2) as ->.
  { rewrite Hk2', Hk2, Hh2. by rewrite (decide_ext _ _ _ _ Hc2). }
  assert (k1' = k1) as ->.
  { rewrite Hk1', Hk1, Hh1. by rewrite (decide_ext _ _ _ _ Hc1). }
  rewrite E1, E2. by apply count_crossing_commute.
Qed.

Lemma update_counts_step_returns line c d :
  well_formed d →
  update_counts_step line c d = ((update_counts_step line c d).1, Returned).
Proof.
  intros Hwf. destruct (well_formed_mk_det d Hwf) as (t & p & ->).
  by rewrite update_counts_step_parts.
Qed.

Lemma update_counts_loop_cons line c d detections :
  well_formed d →
  update_counts_loop line c (d :: detections) =
    update_counts_loop line (update_counts_step line c d).1 detections.
Proof.
  intros Hd. cbn [update_counts_loop].
  by rewrite (update_counts_step_returns _ _ _ Hd).
Qed.

Lemma track_ids_cons_mk_det t p detections :
  track_ids (mk_det t p :: detections) = t :: track_ids detections.
Proof. done. Qed.

Lemma update_counts_loop_permutation line detections detections' :
  detections ≡ₚ detections' →
  ∀ c, Forall well_formed detections → NoDup (track_ids detections) →
  update_counts_loop line c detections =
    update_counts_loop line c detections'.
Proof.
  induction 1 as [|d l l' Hperm IH|d1 d2 l|l l' l'' H1 IH1 H2 IH2];
    intros c Hwf Hnd.
  - done.
  - apply Forall_cons in Hwf as [Hd Hl].
    rewrite !update_counts_loop_cons by done.
    apply IH; [done|].
    destruct (well_formed_mk_det d Hd) as (t & p & ->).
    rewrite track_ids_cons_mk_det in Hnd. by apply NoDup_cons in Hnd as [_ ?].
  - apply Forall_cons in Hwf as [Hd2 Hwf].
    apply Forall_cons in Hwf as [Hd1 Hl].
    destruct (well_formed_mk_det d1 Hd1) as (t1 & p1 & ->).
    destruct (well_formed_mk_det d2 Hd2) as (t2 & p2 & ->).
    rewrite !track_ids_cons_mk_det in Hnd.
    apply NoDup_cons in Hnd as [Hne _].
    apply not_elem_of_cons in Hne as [Hne _].
    rewrite !update_counts_loop_cons by done.
    by rewrite (update_counts_step_commute line c t1 p1 t2 p2).
  - rewrite IH1 by done. apply IH2.
    + by rewrite <- H1.
    + unfold track_ids in *. by rewrite <- H1.
Qed.

(** X4. The order of the detections within a frame does not matter when
    they all have both keys and no two of them carry the same track_id:
    any reordering of the list gives the same state and outcome. *)
Theorem frame_order_irrelevant (c : FootfallCounter)
    (detections detections' : list detection) (frame_height : Z) :
  detections ≡ₚ detections' →
  Forall well_formed detections →
  NoDup (track_ids detections) →
  update_counts c detections frame_height =
    update_counts c detections' frame_height.
Proof.
  intros Hperm Hwf Hnd. unfold update_counts.
  destruct (counting_line_y _ _) as [e|y]; [done|].
  by apply update_counts_loop_permutation.
Qed.

(** ** Tracks that stay on one side of the line *)

Lemma update_counts_step_other_track line c ta pa tb :
  ta ≠ tb →
  let c' := (update_counts_step line c (mk_det ta pa)).1 in
  history c' tb = history c tb ∧ (tb ∈ counted_ids c' ↔ tb ∈ counted_ids c).
Proof.
  intros Hab. cbn zeta.
  destruct (update_counts_loop_other_tracks line c [mk_det ta pa] tb)
    as [Hth Hc].
  { unfold track_ids. cbn. set_solver. }
  cbn zeta in Hth, Hc. cbn [update_counts_loop] in Hth, Hc.
  destruct (update_counts_step line c (mk_det ta pa)) as [c1 [|e]];
    cbn [fst] in *; unfold history; by rewrite Hth.
Qed.

Lemma py_index_from_end_elem_of {A : Type} (l : list A) k x :
  py_index_from_end l k = Some x → x ∈ l.
Proof.
  unfold py_index_from_end. case_decide; [|done].
  apply list_elem_of_lookup_2.
Qed.

Lemma store_track_history_Forall (P : position → Prop) old p :
  Forall P old → P p → Forall P (store_track_history old p).
Proof.
  intros Hold Hp. unfold store_track_history. cbn zeta.
  assert (Forall P (old ++ [p])) by (apply Forall_app; auto).
  case_decide; [by apply Forall_drop | done].
Qed.

Section OneSide.
Variable line : Z.
Variable P : position → Prop.
Hypothesis P_side :
  (∀ p, P p → p.2 < line) ∨ (∀ p, P p → line < p.2).

Lemma crossing_of_one_side h : Forall P h → crossing_of line h = NoCrossing.
Proof.
  intros Hh. unfold crossing_of.
  destruct (py_index_from_end h 2) as [prev|] eqn:Eprev; [|done].
  destruct (py_index_from_end h 1) as [curr|] eqn:Ecurr; [|done].
  apply py_index_from_end_elem_of in Eprev, Ecurr.
  rewrite Forall_forall in Hh.
  pose proof (Hh _ Eprev) as Hp. pose proof (Hh _ Ecurr) as Hc.
  destruct P_side as [Hside|Hside]; apply Hside in Hp, Hc.
  - replace (line <=? curr.2) with false by lia.
    replace (line <? prev.2) with false by lia.
    by rewrite andb_false_r.
  - replace (prev.2 <? line) with false by lia.
    replace (curr.2 <=? line) with false by lia.
    by rewrite andb_false_r.
Qed.

Lemma update_counts_loop_one_side c detections t :
  t ∉ counted_ids c →
  Forall P (history c t) →
  Forall P (observed t detections) →
  let c' := (update_counts_loop line c detections).1 in
  (t ∉ counted_ids c') ∧ Forall P (history c' t).
Proof.
  revert c. induction detections as [|d rest IH]; intros c Hnew Hh Hobs;
    [done|].
  cbn zeta. cbn [update_counts_loop].
  destruct (update_counts_step_cases line c d)
    as [(e & -> & _)|(t' & p & -> & _)]; [done|].
  rewrite update_counts_step_returns by (split; by eexists).
  unfold observed in Hobs. cbn [omap list_omap mk_det det_track_id
                                  det_centroid] in Hobs.
  destruct (decide (Some t' = Some t)) as [[= ->]|Hne].
  - apply Forall_cons in Hobs as [Hp Hrest].
    destruct (update_counts_step_counted line c t p) as (k & E & Hk).
    rewrite decide_False in Hk by done.
    rewrite crossing_of_one_side in Hk
      by (by apply store_track_history_Forall).
    subst k. rewrite E. cbn [count_crossing].
    apply IH; [done | | done].
    unfold history, with_history. cbn [track_history].
    rewrite lookup_insert_eq. cbn. by apply store_track_history_Forall.
  - destruct (update_counts_step_other_track line c t' p t) as [Hh' Hc'];
      [congruence|].
    cbn zeta in Hh', Hc'.
    apply IH; [by rewrite Hc' | by rewrite Hh' | done].
Qed.
End OneSide.

Lemma one_side_run P line c frames t :
  (∀ p, P p → p.2 < line) ∨ (∀ p, P p → line < p.2) →
  Forall (λ f : frame, counting_line_y (line_position c) f.2 = inr line)
    frames →
  t ∉ counted_ids c →
  Forall P (history c t) →
  Forall P (observations t frames) →
  t ∉ counted_ids (feed c frames).
Proof.
  intros Hside Hall. revert c Hall.
  induction frames as [|[ds fh] rest IH]; intros c Hall Hnew Hh Hobs; [done|].
  apply Forall_cons in Hall as [Hy Hall]. cbn [snd] in Hy.
  unfold observations in Hobs. cbn [map concat fst] in Hobs.
  apply Forall_app in Hobs as [Hds Hrest].
  cbn [feed].
  pose proof (update_counts_line_position c ds fh) as Hlp.
  unfold update_counts in *. rewrite Hy in *.
  destruct (update_counts_loop_one_side line P Hside c ds t Hnew Hh Hds)
    as [Hnew' Hh'].
  cbn zeta in Hnew', Hh'.
  apply IH; [by rewrite Hlp | done | done | done].
Qed.

(** X5. A track whose positions all lie strictly on one side of the
    counting line is never counted: when it is not counted yet, and its
    stored history and everything the frames report for it have all
    y < line, or all y > line, it is still not counted after the frames. *)
Theorem one_sided_track_not_counted (c : FootfallCounter)
    (frames : list frame) (line : Z) (t : Z) :
  Forall (λ f : frame, counting_line_y (line_position c) f.2 = inr line)
    frames →
  t ∉ counted_ids c →
  Forall (λ p : position, p.2 < line) (history c t ++ observations t frames) ∨
  Forall (λ p : position, line < p.2) (history c t ++ observations t frames) →
  t ∉ counted_ids (feed c frames).
Proof.
  intros Hall Hnew [Hside|Hside]; apply Forall_app in Hside as [Hh Hobs].
  - apply (one_side_run (λ p, p.2 < line) line); auto.
  - apply (one_side_run (λ p, line < p.2) line); auto.
Qed.

(** * The default counting line *)

Lemma digits2_pos_size p : digits2_pos p = Pos.size p.
Proof. induction p; cbn; congruence. Qed.

Lemma digits2_pos_iter_xO p k :
  Zpos (digits2_pos (Pos.iter xO p k)) = Zpos (digits2_pos p) + Zpos k.
Proof.
  induction k using Pos.peano_ind.
  - cbn. lia.
  - rewrite Pos.iter_succ. cbn [digits2_pos]. lia.
Qed.

Lemma digits2_pos_bound p :
  Zpos p < 2 ^ 53 → Zpos (digits2_pos p) <= 53.
Proof.
  intros Hp. rewrite digits2_pos_size.
  pose proof (Pos.size_le p) as Hle.
  apply Pos2Z.pos_le_pos in Hle. rewrite Pos2Z.inj_pow in Hle.
  destruct (Z_le_gt_dec (Zpos (Pos.size p)) 53) as [|Hgt]; [done|].
  exfalso.
  assert (H54 : 2 ^ 54 <= 2 ^ Zpos (Pos.size p))
    by (apply Z.pow_le_mono_r; lia).
  change (2 ^ 54) with 18014398509481984 in H54.
  change (2 ^ 53) with 9007199254740992 in Hp. lia.
Qed.

Lemma digits2_pos_lower p : 2 ^ (Zpos (digits2_pos p) - 1) <= Zpos p.
Proof.
  induction p as [p IH|p IH|]; cbn [digits2_pos]; [| |done].
  all: rewrite Pos2Z.inj_succ;
    replace (Z.succ (Zpos (digits2_pos p)) - 1)
      with (Z.succ (Zpos (digits2_pos p) - 1)) by lia;
    rewrite Z.pow_succ_r by lia; lia.
Qed.

(** A mantissa of exactly 53 bits with an exponent in range is kept. *)
Lemma binary_round_aux_canonical s m e :
  Zpos (digits2_pos m) = 53 → -1074 <= e <= 971 →
  binary_round_aux prec emax s (Zpos m) e loc_Exact = S754_finite s m e.
Proof.
  intros Hd He.
  unfold binary_round_aux, shr_fexp, fexp, emin, prec, emax.
  cbn [Zdigits2 shr_record_of_loc]. rewrite Hd.
  replace (Z.max (53 + e - 53) (3 - 1024 - 53) - e) with 0 by lia.
  cbn [shr shr_m loc_of_shr_record round_nearest_even Zdigits2].
  rewrite Hd.
  replace (Z.max (53 + e - 53) (3 - 1024 - 53) - e) with 0 by lia.
  cbn [shr shr_m].
  replace (e <=? 1024 - 53) with true by lia. done.
Qed.

(** Half of a 53-bit float: the mantissa stays, the exponent drops by 1. *)
Lemma binary_round_aux_half s m e :
  Zpos (digits2_pos m) = 53 → -1073 <= e <= 972 →
  binary_round_aux prec emax s (Zpos (m * 4503599627370496)) (e + -53)
    loc_Exact = S754_finite s m (e - 1).
Proof.
  intros Hd He.
  rewrite Pos.mul_comm.
  change (4503599627370496 * m)%positive with (Pos.iter xO m 52).
  unfold binary_round_aux, shr_fexp, fexp, emin, prec, emax.
  cbn [Zdigits2 shr_record_of_loc].
  rewrite digits2_pos_iter_xO, Hd.
  replace (Z.max (53 + 52 + (e + -53) - 53) (3 - 1024 - 53) - (e + -53))
    with 52 by lia.
  assert (Hshift :
    SpecFloat.iter_pos shr_1 52
      (Build_shr_record (Zpos (Pos.iter xO m 52)) false false) =
    Build_shr_record (Zpos m) false false) by reflexivity.
  cbn [shr]. rewrite Hshift.
  cbn [shr_m loc_of_shr_record round_nearest_even Zdigits2].
  rewrite Hd.
  replace (Z.max (53 + (e + -53 + 52) - 53) (3 - 1024 - 53) - (e + -53 + 52))
    with 0 by lia.
  cbn [shr shr_m].
  replace (e + -53 + 52 <=? 1024 - 53) with true by lia.
  f_equal. lia.
Qed.

Lemma binary_round_int s p :
  Zpos p < 2 ^ 53 →
  ∃ m e, binary_round prec emax s p 0 = S754_finite s m e ∧
         Zpos (digits2_pos m) = 53 ∧ -52 <= e <= 0 ∧
         Zpos m = Zpos p * 2 ^ (- e).
Proof.
  intros Hp. pose proof (digits2_pos_bound p Hp) as Hd.
  unfold binary_round, shl_align, fexp, emin, prec, emax.
  set (d := Zpos (digits2_pos p)) in *.
  assert (0 < d) by (subst d; lia).
  replace (Z.max (d + 0 - 53) (3 - 1024 - 53)) with (d - 53) by lia.
  destruct (d - 53 - 0) as [|k|k] eqn:Ek; [| lia |].
  - exists p, 0. rewrite binary_round_aux_canonical by (fold d; lia).
    repeat split; try (fold d; lia).
  - exists (Pos.iter xO p k), (d - 53).
    rewrite binary_round_aux_canonical
      by (rewrite ?digits2_pos_iter_xO; fold d; lia).
    split; [done|]. rewrite digits2_pos_iter_xO. fold d.
    split; [lia|]. split; [lia|].
    replace (- (d - 53)) with (Zpos k) by lia.
    clear. induction k using Pos.peano_ind.
    + cbn. lia.
    + rewrite Pos.iter_succ, Pos2Z.inj_succ, Z.pow_succ_r by lia. lia.
Qed.

Lemma counting_line_y_half_pos s p :
  Zpos p < 2 ^ 53 →
  int_of_float (SFmul prec emax (binary_round prec emax s p 0) LINE_POSITION)
    = inr (cond_Zopp s (Zpos p / 2)).
Proof.
  intros Hp.
  destruct (binary_round_int s p Hp) as (m & e & -> & Hd & He & Hm).
  unfold LINE_POSITION. cbn [SFmul].
  rewrite binary_round_aux_half by (done || lia).
  rewrite xorb_false_r. cbn [int_of_float]. do 2 f_equal.
  rewrite Z.shiftl_div_pow2 by lia.
  replace (- (e - 1)) with (Z.succ (- e)) by lia.
  rewrite Z.pow_succ_r by lia. rewrite Hm.
  rewrite Z.div_mul_cancel_r; [done | lia |].
  apply Z.pow_nonzero; lia.
Qed.

Lemma counting_line_y_default frame_height :
  - 2 ^ 53 < frame_height < 2 ^ 53 →
  counting_line_y LINE_POSITION frame_height = inr (frame_height ÷ 2).
Proof.
  intros Hh. unfold counting_line_y, float_of_int.
  destruct frame_height as [|p|p]; [done| |].
  - cbn [binary_normalize].
    pose proof (counting_line_y_half_pos false p ltac:(lia)) as Hline.
    destruct (binary_round_int false p ltac:(lia)) as (m & e & E & _).
    rewrite E in *. rewrite Hline. cbn [cond_Zopp].
    by rewrite Z.quot_div_nonneg by lia.
  - cbn [binary_normalize].
    pose proof (counting_line_y_half_pos true p ltac:(lia)) as Hline.
    destruct (binary_round_int true p ltac:(lia)) as (m & e & E & _).
    rewrite E in *. rewrite Hline. cbn [cond_Zopp].
    change (Z.neg p) with (- Z.pos p).
    by rewrite Z.quot_opp_l, Z.quot_div_nonneg by lia.
Qed.

(** X6. With the default fraction [LINE_POSITION] = 0.5 the counting line
    is half the frame height, rounded toward zero, for every frame height
    of magnitude below 2^53; so for a height h >= 0 it is the integer
    quotient h / 2, within the frame. *)
Theorem default_line_is_half_height (frame_height : Z) :
  - 2 ^ 53 < frame_height < 2 ^ 53 →
  counting_line_y LINE_POSITION frame_height = inr (frame_height ÷ 2) ∧
  (0 ≤ frame_height →
   frame_height ÷ 2 = frame_height / 2 ∧
   0 ≤ frame_height ÷ 2 ≤ frame_height).
Proof.
  intros Hh. split; [by apply counting_line_y_default|].
  intros Hpos. rewrite Z.quot_div_nonneg by lia.
  split; [done|]. split; [apply Z.div_pos; lia|].
  apply Z.div_le_upper_bound; lia.
Qed.

Lemma default_line_is_half_height_witness :
  - 2 ^ 53 < 1080 < 2 ^ 53 ∧
  counting_line_y LINE_POSITION 1080 = inr 540.
Proof.
  assert (Hh : - 2 ^ 53 < 1080 < 2 ^ 53) by (vm_compute; split; reflexivity).
  split; [exact Hh|].
  exact (proj1 (default_line_is_half_height 1080 Hh)).
Defined.

(** * [detect_and_track] *)

Lemma int_of_float_error f e :
  int_of_float f = inl e → e = OverflowError ∨ e = ValueError.
Proof. destruct f; cbn; intros [= <-]; auto. Qed.

Lemma detect_one_inv b t conf d :
  detect_one b t conf = inr d →
  td_track_id d = t ∧ td_confidence d = conf ∧
  let '(x1, y1, x2, y2) := b in
  midpoint x1 x2 = inr (td_centroid d).1 ∧
  midpoint y1 y2 = inr (td_centroid d).2 ∧
  int_of_float x1 = inr (td_bbox d).1.1.1 ∧
  int_of_float y1 = inr (td_bbox d).1.1.2 ∧
  int_of_float x2 = inr (td_bbox d).1.2 ∧
  int_of_float y2 = inr (td_bbox d).2.
Proof.
  destruct b as [[[x1 y1] x2] y2]. unfold detect_one.
  destruct (midpoint x1 x2), (midpoint y1 y2), (int_of_float x1),
    (int_of_float y1), (int_of_float x2), (int_of_float y2); try done.
  by intros [= <-].
Qed.

Lemma detect_one_error b t conf e :
  detect_one b t conf = inl e → e = OverflowError ∨ e = ValueError.
Proof.
  destruct b as [[[x1 y1] x2] y2]. unfold detect_one, midpoint.
  repeat match goal with
  | |- context [match int_of_float ?f with _ => _ end] =>
    let E := fresh "E" in
    destruct (int_of_float f) eqn:E;
      [intros [= <-]; by apply int_of_float_error in E|]
  end.
  done.
Qed.

Lemma detect_loop_inv boxes ids confs ds :
  detect_loop boxes ids confs = inr ds →
  length ds = (length boxes `min` (length ids `min` length confs))%nat ∧
  td_track_id <$> ds = take (length ds) ids ∧
  td_confidence <$> ds = take (length ds) confs ∧
  Forall2 (λ b d, ∃ t conf, detect_one b t conf = inr d)
    (take (length ds) boxes) ds.
Proof.
  revert ids confs ds.
  induction boxes as [|b boxes IH]; intros [|t ids] [|conf confs] ds;
    cbn [detect_loop]; try (intros [= <-]; cbn; by auto).
  destruct (detect_one b t conf) as [e|d] eqn:Ed; [done|].
  destruct (detect_loop boxes ids confs) as [e|ds'] eqn:Eds; [done|].
  intros [= <-]. destruct (IH _ _ _ Eds) as (Hlen & Hids & Hconfs & Hall).
  destruct (detect_one_inv _ _ _ _ Ed) as (Ht & Hc & _).
  cbn [length take fmap list_fmap].
  split; [rewrite Hlen; lia|].
  split; [by rewrite Ht, Hids|]. split; [by rewrite Hc, Hconfs|].
  constructor; [eauto | done].
Qed.

Lemma detect_loop_error boxes ids confs e :
  detect_loop boxes ids confs = inl e → e = OverflowError ∨ e = ValueError.
Proof.
  revert ids confs.
  induction boxes as [|b boxes IH]; intros [|t ids] [|conf confs];
    cbn [detect_loop]; try done.
  destruct (detect_one b t conf) as [e'|d] eqn:Ed.
  - intros [= <-]. by apply detect_one_error in Ed.
  - destruct (detect_loop boxes ids confs) as [e'|ds'] eqn:Eds; [|done].
    intros [= <-]. by apply IH in Eds.
Qed.

Lemma detect_and_track_error boxes e :
  detect_and_track boxes = inl e → e = OverflowError ∨ e = ValueError.
Proof.
  unfold detect_and_track. destruct (boxes_id boxes); [|done].
  apply detect_loop_error.
Qed.

Lemma detect_and_track_follows_tracker_aux boxes ds :
  detect_and_track boxes = inr ds →
  (boxes_id boxes = None → ds = []) ∧
  (∀ ids, boxes_id boxes = Some ids →
     length ds = (length (boxes_xyxy boxes) `min`
                  (length ids `min` length (boxes_conf boxes)))%nat ∧
     td_track_id <$> ds = take (length ds) ids ∧
     td_confidence <$> ds = take (length ds) (boxes_conf boxes)).
Proof.
  unfold detect_and_track. destruct (boxes_id boxes) as [ids|]; intros Hds.
  - split; [done|]. intros ? [= <-].
    by destruct (detect_loop_inv _ _ _ _ Hds) as (? & ? & ? & _).
  - injection Hds as <-. done.
Qed.

(** X7. What [detect_and_track] returns follows the tracker's arrays: no
    detection when the tracker gives no ids; otherwise as many detections
    as the shortest of the three arrays has entries, with the track_ids and
    the confidences of the arrays, in their order. When it raises, it is
    [OverflowError] or [ValueError], from [int()] on a coordinate that is
    not finite. *)
Theorem detect_and_track_follows_tracker (boxes : tracker_boxes) :
  (∀ ds, detect_and_track boxes = inr ds →
     match boxes_id boxes with
     | None => ds = []
     | Some ids =>
       length ds = (length (boxes_xyxy boxes) `min`
                    (length ids `min` length (boxes_conf boxes)))%nat ∧
       td_track_id <$> ds = take (length ds) ids ∧
       td_confidence <$> ds = take (length ds) (boxes_conf boxes)
     end) ∧
  (∀ e, detect_and_track boxes = inl e →
     e = OverflowError ∨ e = ValueError).
Proof.
  unfold detect_and_track. destruct (boxes_id boxes) as [ids|]; split.
  - intros ds Hds. by destruct (detect_loop_inv _ _ _ _ Hds) as (? & ? & ? & _).
  - intros e. apply detect_loop_error.
  - by intros ds [= <-].
  - done.
Qed.

Lemma to_detection_well_formed ds :
  Forall well_formed (to_detection <$> ds).
Proof.
  apply Forall_fmap, Forall_forall. intros d _. split; by eexists.
Qed.

Lemma track_ids_to_detection ds :
  track_ids (to_detection <$> ds) = td_track_id <$> ds.
Proof. unfold track_ids. induction ds as [|d ds IH]; cbn; [done | by f_equal]. Qed.

Lemma update_counts_stores_detections c (ds : list tracked_detection) y d :
  d ∈ ds →
  td_track_id d ∈
    dom (track_history (update_counts_loop y c (to_detection <$> ds)).1).
Proof.
  revert c. induction ds as [|d0 ds IH]; intros c Hd;
    [by apply elem_of_nil in Hd|].
  cbn [fmap list_fmap]. unfold to_detection at 1.
  rewrite update_counts_loop_cons by (split; by eexists).
  set (c1 := (update_counts_step y c _).1).
  assert (Hth : track_history c1 =
                <[td_track_id d0 := store_track_history
                    (history c (td_track_id d0)) (td_centroid d0)]>
                  (track_history c)) by apply update_counts_step_history.
  apply elem_of_cons in Hd as [->|Hd]; [|by apply IH].
  assert (Hgrow : dom (track_history c1) ⊆
            dom (track_history (update_counts_loop y c1
                                  (to_detection <$> ds)).1)).
  { apply (update_counts_loop_lift state_grows state_grows_refl
             state_grows_trans update_counts_step_state_grows). }
  apply Hgrow. rewrite Hth, dom_insert_L. set_solver.
Qed.

(** X8. [update_counts] on the detections that [detect_and_track] returned
    never raises for a detection: every one of them has both keys, so the
    call returns whenever the counting line has a value, and afterwards
    every track_id that the tracker reported with a box and a confidence
    has a stored history. *)
Theorem update_counts_accepts_detections (c : FootfallCounter)
    (boxes : tracker_boxes) (ds : list tracked_detection)
    (frame_height y : Z) :
  detect_and_track boxes = inr ds →
  counting_line_y (line_position c) frame_height = inr y →
  let r := update_counts c (to_detection <$> ds) frame_height in
  r.2 = Returned ∧
  ∀ ids t, boxes_id boxes = Some ids →
    t ∈ take (length (boxes_xyxy boxes) `min`
              (length ids `min` length (boxes_conf boxes))) ids →
    t ∈ dom (track_history r.1).
Proof.
  intros Hds Hy. cbn zeta. unfold update_counts. rewrite Hy.
  split; [apply update_counts_loop_returns, to_detection_well_formed|].
  intros ids t Hids Ht.
  destruct (detect_and_track_follows_tracker_aux boxes ds Hds) as [Hnone Hsome].
  destruct (Hsome ids Hids) as (Hlen & Htids & _).
  rewrite <- Hlen, <- Htids in Ht.
  apply list_elem_of_fmap in Ht as (d & -> & Hd).
  by apply update_counts_stores_detections.
Qed.


(** * Drawing *)

Lemma defaultdict_getitem_present th k v :
  th !! k = Some v → defaultdict_getitem th k = (th, v).
Proof. unfold defaultdict_getitem. by intros ->. Qed.

Lemma draw_detection_state c d : (draw_detection c d).1 = c.
Proof.
  unfold draw_detection. destruct (td_bbox d) as [[[b0 b1] b2] b3].
  cbv zeta. destruct (track_history c !! td_track_id d) as [h|] eqn:Eh;
    [|done].
  rewrite (defaultdict_getitem_present _ _ _ Eh).
  destruct (decide (1 < length h)%nat); [|by destruct c].
  rewrite (defaultdict_getitem_present _ _ _ Eh). by destruct c.
Qed.

Lemma draw_detections_spec c detections :
  draw_detections c detections =
    (c, concat ((λ d, (draw_detection c d).2) <$> detections)).
Proof.
  induction detections as [|d rest IH]; [done|].
  cbn [draw_detections fmap list_fmap concat].
  pose proof (draw_detection_state c d) as Hd.
  destruct (draw_detection c d) as [c1 cmds]. cbn [fst snd] in *. subst c1.
  by rewrite IH.
Qed.

Lemma draw_visualizations_cases c shape detections :
  (draw_visualizations c shape detections).1 = c ∧
  match counting_line_y (line_position c) shape.1 with
  | inl e => (draw_visualizations c shape detections).2 = inl e
  | inr _ => ∃ cmds, (draw_visualizations c shape detections).2 = inr cmds
  end.
Proof.
  destruct shape as [h w]. unfold draw_visualizations. cbn [fst snd].
  rewrite draw_detections_spec.
  destruct (counting_line_y (line_position c) h); cbn [fst snd]; eauto.
Qed.

(** X9. Drawing only reads the counter: [draw_visualizations] leaves
    the totals, the counted set and the histories as they are, and stores
    no history for a detection of a track that has none; each detection is
    drawn from that unchanged state, whatever was drawn before it. *)
Theorem draw_visualizations_reads_only (c : FootfallCounter)
    (shape : Z * Z) (detections : list tracked_detection) :
  (draw_visualizations c shape detections).1 = c ∧
  (∀ y, counting_line_y (line_position c) shape.1 = inr y →
     (draw_visualizations c shape detections).2 =
       inr ([cv2_line (0, y) (shape.2, y) (0, 255, 255);
             cv2_putText text_counting_line (10, y - 10) (0, 255, 255)]
            ++ concat ((λ d, (draw_detection c d).2) <$> detections))) ∧
  (∀ e, counting_line_y (line_position c) shape.1 = inl e →
     (draw_visualizations c shape detections).2 = inl e).
Proof.
  destruct shape as [h w]. unfold draw_visualizations. cbn [fst snd].
  rewrite draw_detections_spec.
  destruct (counting_line_y (line_position c) h) as [e|y]; cbn [fst snd].
  - split; [done|]. split; [done | by intros ? [= <-]].
  - split; [done|]. split; [by intros ? [= <-] | done].
Qed.

(** How a detection is drawn: its box, label and centroid are green when
    its track is counted and blue otherwise, and its trajectory is drawn,
    in the same colour and through the stored positions, exactly when the
    track has more than one stored position. *)
Lemma draw_detection_spec (c : FootfallCounter) (d : tracked_detection) :
  let t := td_track_id d in
  let col : colour :=
    if decide (t ∈ counted_ids c) then (0, 255, 0) else (255, 0, 0) in
  let '(b0, b1, b2, b3) := td_bbox d in
  (draw_detection c d).2 =
    [cv2_rectangle (b0, b1) (b2, b3) col;
     cv2_putText (text_id t) (b0, b1 - 10) col;
     cv2_circle (td_centroid d) 4 col]
    ++ (if decide (1 < length (history c t))%nat
        then [cv2_polylines (history c t) col] else []).
Proof.
  cbn zeta. unfold draw_detection, history.
  destruct (td_bbox d) as [[[b0 b1] b2] b3]. cbv zeta.
  destruct (track_history c !! td_track_id d) as [h|] eqn:Eh; cbn [default].
  - rewrite (defaultdict_getitem_present _ _ _ Eh). change (id h) with h.
    destruct (decide (1 < length h)%nat); [|done].
    by rewrite (defaultdict_getitem_present _ _ _ Eh).
  - by rewrite (decide_False (P := (1 < length [])%nat)) by (cbn; lia).
Qed.

Lemma store_track_history_last old p :
  ∃ pre, store_track_history old p = pre ++ [p].
Proof.
  unfold store_track_history. cbn zeta. case_decide as Hlen.
  - destruct old as [|q old]; cbn in *.
    + unfold TRACK_HISTORY_LENGTH in Hlen. lia.
    + rewrite drop_0. by exists old.
  - by exists old.
Qed.

Lemma update_counts_loop_last_centroid c (ds : list tracked_detection) y d :
  NoDup (td_track_id <$> ds) →
  d ∈ ds →
  ∃ pre, history (update_counts_loop y c (to_detection <$> ds)).1
           (td_track_id d) = pre ++ [td_centroid d].
Proof.
  revert c. induction ds as [|d0 ds IH]; intros c Hnd Hd;
    [by apply elem_of_nil in Hd|].
  cbn [fmap list_fmap] in *. apply NoDup_cons in Hnd as [Hnotin Hnd].
  unfold to_detection at 1.
  rewrite update_counts_loop_cons by (split; by eexists).
  set (c1 := (update_counts_step y c _).1).
  apply elem_of_cons in Hd as [->|Hd]; [|by apply IH].
  destruct (update_counts_loop_other_tracks y c1 (to_detection <$> ds)
              (td_track_id d0)) as [Hth _].
  { by rewrite track_ids_to_detection. }
  cbn zeta in Hth. unfold history at 1. rewrite Hth.
  subst c1. rewrite update_counts_step_history, lookup_insert_eq. cbn.
  apply store_track_history_last.
Qed.

(** X10. A frame is drawn from the state that [update_counts] left for
    it. When no two detections of the frame carry the same track_id, each
    detection is drawn green if its track is counted by then and blue
    otherwise, its stored history ends at its own centroid, and its
    trajectory is drawn through that history as soon as it has a second
    position. *)
Theorem frame_drawn_after_update (c : FootfallCounter)
    (detections : list tracked_detection) (frame_height y : Z)
    (d : tracked_detection) :
  counting_line_y (line_position c) frame_height = inr y →
  NoDup (td_track_id <$> detections) →
  d ∈ detections →
  let c' := (update_counts c (to_detection <$> detections) frame_height).1 in
  let col : colour :=
    if decide (td_track_id d ∈ counted_ids c')
    then (0, 255, 0) else (255, 0, 0) in
  ∃ pre, history c' (td_track_id d) = pre ++ [td_centroid d] ∧
    cv2_circle (td_centroid d) 4 col ∈ (draw_detection c' d).2 ∧
    (pre ≠ [] →
     cv2_polylines (pre ++ [td_centroid d]) col ∈ (draw_detection c' d).2).
Proof.
  intros Hy Hnd Hd. cbn zeta. unfold update_counts. rewrite Hy.
  destruct (update_counts_loop_last_centroid c detections y d Hnd Hd)
    as [pre Hpre].
  exists pre. split; [done|].
  pose proof (draw_detection_spec
                (update_counts_loop y c (to_detection <$> detections)).1 d)
    as Hdraw.
  cbn zeta in Hdraw. destruct (td_bbox d) as [[[b0 b1] b2] b3].
  rewrite Hdraw, Hpre. split.
  - apply elem_of_app. left. repeat constructor.
  - intros Hne. apply elem_of_app. right.
    rewrite (decide_True (P := (1 < length (pre ++ [td_centroid d]))%nat));
      [by apply list_elem_of_singleton|].
    rewrite length_app. destruct pre; [done | cbn; lia].
Qed.


(** * [main] *)

Lemma run_app c frames more :
  run c (frames ++ more) =
    match run c frames with
    | (c', Returned) => run c' more
    | r => r
    end.
Proof.
  revert c. induction frames as [|[ds fh] rest IH]; intros c; cbn; [done|].
  destruct (update_counts c ds fh) as [c1 [|e]]; [apply IH | done].
Qed.

Lemma run_singleton c detections frame_height :
  run c [(detections, frame_height)] =
    update_counts c detections frame_height.
Proof. cbn. by destruct (update_counts c detections frame_height) as [? []]. Qed.

Lemma update_counts_empty c frame_height :
  (update_counts c [] frame_height).1 = c.
Proof. unfold update_counts. by destruct (counting_line_y _ _). Qed.

Lemma update_counts_raised_kind c (ds : list tracked_detection)
    frame_height c' e :
  update_counts c (to_detection <$> ds) frame_height = (c', Raised e) →
  e = OverflowError ∨ e = ValueError.
Proof.
  unfold update_counts.
  destruct (counting_line_y _ _) as [e'|y] eqn:Ey.
  - intros [= _ <-]. by apply counting_line_y_error in Ey.
  - intros Hloop.
    pose proof (update_counts_loop_returns y c (to_detection <$> ds)
                  (to_detection_well_formed ds)) as Hr.
    by rewrite Hloop in Hr.
Qed.

Lemma progress_lines_app out out' :
  progress_lines (out ++ out') = progress_lines out ++ progress_lines out'.
Proof. apply omap_app. Qed.

Lemma main_invariant_reached H frames s n :
  main_invariant H frames s n → main_reached H frames s n.
Proof.
  intros (? & ? & ? & Hrun & _). unfold main_reached. by rewrite Hrun.
Qed.

Lemma progress_count n :
  if decide (Z.of_nat (S n) `mod` 30 = 0)
  then (S n / 30 = S (n / 30) ∧ 30 * S (n / 30) = S n)%nat
  else (S n / 30 = n / 30)%nat.
Proof.
  assert (Hz : Z.of_nat (S n) `mod` 30 = Z.of_nat (S n `mod` 30))
    by (by rewrite Nat2Z.inj_mod).
  rewrite Hz. clear Hz.
  pose proof (Nat.div_mod_eq (S n) 30) as HS.
  pose proof (Nat.div_mod_eq n 30) as Hn.
  pose proof (Nat.mod_upper_bound n 30) as Hr.
  pose proof (Nat.mod_upper_bound (S n) 30) as HSr.
  generalize dependent (S n / 30)%nat. generalize dependent (n / 30)%nat.
  generalize dependent (S n `mod` 30)%nat.
  generalize dependent (n `mod` 30)%nat.
  intros r Hr r' Hr' b Hn a HS. case_decide; lia.
Qed.

Lemma progress_due n :
  Z.of_nat (S n) `mod` 30 = 0 →
  (S n / 30 = S (n / 30) ∧ 30 * S (n / 30) = S n)%nat.
Proof. intros Hmod. pose proof (progress_count n). by rewrite decide_True in *. Qed.

Lemma progress_not_due n :
  Z.of_nat (S n) `mod` 30 ≠ 0 → (S n / 30 = n / 30)%nat.
Proof. intros Hmod. pose proof (progress_count n). by rewrite decide_False in *. Qed.

Lemma process_frame_spec H frames s n :
  main_invariant H frames s n →
  match process_frame H s with
  | (s', Looping) =>
    ms_paused s' = ms_paused s ∧
    (if ms_paused s then s' = s else main_invariant H frames s' (S n))
  | (s', Broke) =>
    main_invariant H frames s' n ∧ ms_paused s = false ∧
    n = length frames ∧ ms_paused s' = false
  | (s', Crashed e) =>
    main_reached H frames s' (S n) ∧ ms_paused s = false ∧
    (e = OverflowError ∨ e = ValueError)
  end.
Proof.
  intros (Hcount & Hn & Hleft & Hrun & Hprog). unfold process_frame.
  destruct (ms_paused s) eqn:Hp; [done|].
  destruct (ms_frames_left s) as [|f rest] eqn:Hfl.
  { assert (n = length frames).
    { symmetry in Hleft. apply drop_nil_inv in Hleft. lia. }
    repeat split; cbn; try done.
    rewrite progress_lines_app, Hprog. cbn. by rewrite app_nil_r. }
  assert (Hf : frames !! n = Some f).
  { rewrite <- (Nat.add_0_r n), <- lookup_drop, <- Hleft. done. }
  assert (Hrest : rest = drop (S n) frames).
  { replace (S n) with (n + 1)%nat by lia.
    by rewrite <- drop_drop, <- Hleft. }
  assert (Hn' : (S n ≤ length frames)%nat)
    by (apply lookup_lt_Some in Hf; lia).
  assert (Hcount' : ms_frame_count s + 1 = Z.of_nat (S n)) by lia.
  assert (Hrun' : ∀ ds, fed_frame H f = (ds, H) →
            run (__init__ LINE_POSITION) (fed_frame H <$> take (S n) frames)
              = update_counts (ms_counter s) ds H).
  { intros ds Hds. rewrite (take_S_r _ _ _ Hf), fmap_app, run_app, Hrun.
    cbn [fmap list_fmap]. rewrite Hds. apply run_singleton. }
  destruct (detect_and_track (frame_boxes f)) as [e|ds] eqn:Hdet.
  { assert (Hfed : fed_frame H f = ([], H))
      by (unfold fed_frame; by rewrite Hdet).
    split; [|split; [done|]].
    - repeat split; cbn [ms_frame_count ms_frames_left ms_counter]; try done.
      rewrite (Hrun' [] Hfed). by rewrite update_counts_empty.
    - by apply detect_and_track_error in Hdet. }
  assert (Hfed : fed_frame H f = (to_detection <$> ds, H))
    by (unfold fed_frame; by rewrite Hdet).
  specialize (Hrun' _ Hfed).
  destruct (update_counts (ms_counter s) (to_detection <$> ds) H)
    as [c1 [|e]] eqn:Hupd.
  2: { split; [|split; [done|]].
       - repeat split; cbn [ms_frame_count ms_frames_left ms_counter];
           try done. by rewrite Hrun'.
       - by apply update_counts_raised_kind in Hupd. }
  destruct (draw_visualizations_cases c1 (frame_shape f) ds)
    as (Hstate & Hres).
  destruct (draw_visualizations c1 (frame_shape f) ds) as [c2 [e|cmds]];
    cbn [fst snd] in *; subst c2.
  { split; [|split; [done|]].
    - repeat split; cbn [ms_frame_count ms_frames_left ms_counter];
        try done. by rewrite Hrun'.
    - destruct (counting_line_y (line_position c1) (frame_shape f).1)
        as [e'|y] eqn:Ey.
      + injection Hres as <-. by apply counting_line_y_error in Ey.
      + by destruct Hres. }
  split; [done|].
  repeat split; cbn [ms_frame_count ms_frames_left ms_counter ms_output];
    try done.
  rewrite progress_lines_app, Hprog. rewrite Hcount'.
  case_decide as Hmod.
  - destruct (progress_due n Hmod) as [Hdiv Hmul].
    rewrite Hdiv, seq_S, fmap_app. cbn [fmap list_fmap progress_lines omap
                                        list_omap].
    do 2 f_equal. unfold progress_line.
    replace (1 + n / 30)%nat with (S (n / 30)) by lia.
    rewrite Hmul, Hrun'. done.
  - rewrite (progress_not_due n Hmod). cbn. by rewrite app_nil_r.
Qed.

Lemma handle_key_cases s key :
  (Z.land key 255 = 27 ∧ handle_key s key = (s, Broke)) ∨
  (Z.land key 255 = 32 ∧
   handle_key s key =
     (mkMain (ms_counter s) (ms_frames_left s) (ms_frame_count s)
        (negb (ms_paused s))
        (ms_output s ++
         [if negb (ms_paused s) then print_paused else print_resumed]),
      Looping)) ∨
  (other_key key ∧ handle_key s key = (s, Looping)).
Proof.
  unfold handle_key, other_key. cbv zeta.
  destruct (Z.land key 255 =? 27) eqn:E27; [left; split; [lia | done]|].
  destruct (Z.land key 255 =? 32) eqn:E32; [right; left; split; [lia | done]|].
  right; right. split; [lia | done].
Qed.

Lemma handle_key_invariant H frames s n key :
  main_invariant H frames s n →
  main_invariant H frames (handle_key s key).1 n ∧
  ((handle_key s key).2 = Looping ∨ (handle_key s key).2 = Broke).
Proof.
  intros Hinv.
  destruct (handle_key_cases s key) as [[_ ->]|[[_ ->]|[_ ->]]]; cbn [fst snd];
    auto.
  split; [|auto]. destruct Hinv as (? & ? & ? & ? & Hprog).
  repeat split; cbn [ms_frame_count ms_frames_left ms_counter ms_output];
    try done.
  rewrite progress_lines_app, Hprog.
  destruct (negb (ms_paused s)); cbn; by rewrite app_nil_r.
Qed.

Lemma main_iteration_spec H frames s n key :
  main_invariant H frames s n →
  match main_iteration H s key with
  | (s', Crashed e) =>
    main_reached H frames s' (S n) ∧ (e = OverflowError ∨ e = ValueError)
  | (s', _) => ∃ n', main_invariant H frames s' n'
  end.
Proof.
  intros Hinv. unfold main_iteration.
  pose proof (process_frame_spec H frames s n Hinv) as Hproc.
  destruct (process_frame H s) as [s1 [| |e]].
  - destruct Hproc as [_ Hproc].
    assert (∃ n1, main_invariant H frames s1 n1) as [n1 Hinv1].
    { destruct (ms_paused s); [subst s1|]; eauto. }
    destruct (handle_key_invariant H frames s1 n1 key Hinv1) as [Hk Hst].
    destruct (handle_key s1 key) as [s2 st]. cbn [fst snd] in *.
    destruct Hst as [-> | ->]; eauto.
  - destruct Hproc as [? _]. eauto.
  - destruct Hproc as (? & _ & ?). done.
Qed.

Lemma main_loop_spec H frames keys s n :
  main_invariant H frames s n →
  match main_loop H s keys with
  | (s', Crashed e) =>
    (∃ n', main_reached H frames s' n') ∧
    (e = OverflowError ∨ e = ValueError)
  | (s', _) => ∃ n', main_invariant H frames s' n'
  end.
Proof.
  revert s n. induction keys as [|key keys IH]; intros s n Hinv;
    cbn [main_loop]; [eauto|].
  pose proof (main_iteration_spec H frames s n key Hinv) as Hit.
  destruct (main_iteration H s key) as [s1 [| |e]].
  - destruct Hit as [n1 Hinv1]. by apply (IH s1 n1).
  - done.
  - destruct Hit as [? ?]. eauto.
Qed.

Lemma main_invariant_start H frames out :
  progress_lines out = [] →
  main_invariant H frames (mkMain (__init__ LINE_POSITION) frames 0 false out)
    0.
Proof. intros Hout. repeat split; cbn; try done. lia. Qed.

Lemma main_reached_start H frames out :
  main_reached H frames (mkMain (__init__ LINE_POSITION) frames 0 false out) 0.
Proof. repeat split; cbn; try done. lia. Qed.

(** What [main] has reached when it ends, in whichever way. *)
Lemma main_spec v keys :
  let r := main v keys in
  (∀ H, int_of_float (prop_frame_height v) = inr H →
     ∃ n, main_reached H (video_frames v) r.1 n ∧
          (r.2 = Finished ∨ r.2 = StillLooping →
           main_invariant H (video_frames v) r.1 n)) ∧
  (r.2 = Finished ∨ r.2 = StillLooping →
   ∃ H, int_of_float (prop_frame_height v) = inr H) ∧
  (∀ e, r.2 = MainRaised e → e = OverflowError ∨ e = ValueError).
Proof.
  cbn zeta. unfold main. cbv zeta.
  assert (Hearly : ∀ out st,
            (st = Finished ∨ st = StillLooping → False) →
            ∀ H, int_of_float (prop_frame_height v) = inr H →
            ∃ n, main_reached H (video_frames v)
                   (mkMain (__init__ LINE_POSITION) (video_frames v) 0 false
                           out) n ∧
                 (st = Finished ∨ st = StillLooping →
                  main_invariant H (video_frames v)
                    (mkMain (__init__ LINE_POSITION) (video_frames v) 0 false
                            out) n)).
  { intros out st Hst H _. exists 0%nat.
    split; [apply main_reached_start | by intros ?%Hst]. }
  destruct (is_opened v); cbn [negb].
  2: { cbn [snd fst]. split; [|split].
       - apply Hearly. by intros [|].
       - by intros [|].
       - done. }
  destruct (int_of_float (prop_fps v)) as [e|fps] eqn:Efps.
  { cbn [snd fst]. split; [|split].
    - apply Hearly. by intros [|].
    - by intros [|].
    - intros ? [= <-]. by apply int_of_float_error in Efps. }
  destruct (int_of_float (prop_frame_width v)) as [e|w] eqn:Ew.
  { cbn [snd fst]. split; [|split].
    - apply Hearly. by intros [|].
    - by intros [|].
    - intros ? [= <-]. by apply int_of_float_error in Ew. }
  destruct (int_of_float (prop_frame_height v)) as [e|H] eqn:EH.
  { cbn [snd fst]. split; [|split].
    - apply Hearly. by intros [|].
    - by intros [|].
    - intros ? [= <-]. by apply int_of_float_error in EH. }
  pose proof (main_loop_spec H (video_frames v) keys _ 0%nat
                (main_invariant_start H (video_frames v)
                   [print_video_loaded w H fps; print_processing] eq_refl))
    as Hloop.
  destruct (main_loop H _ keys) as [s [| |e]]; cbn [fst snd].
  - destruct Hloop as [n Hinv]. split; [|split; [eauto | done]].
    intros ? [= <-]. exists n.
    split; [by apply main_invariant_reached | done].
  - destruct Hloop as [n (? & ? & ? & Hrun & Hprog)].
    assert (Hinv : main_invariant H (video_frames v)
              (mkMain (ms_counter s) (ms_frames_left s) (ms_frame_count s)
                 (ms_paused s)
                 (ms_output s ++
                  [print_final (entry_count (ms_counter s))
                     (exit_count (ms_counter s))
                     (entry_count (ms_counter s) - exit_count (ms_counter s))
                     (ms_frame_count s)])) n).
    { repeat split;
        cbn [ms_frame_count ms_frames_left ms_counter ms_output]; try done.
      rewrite progress_lines_app, Hprog. cbn. by rewrite app_nil_r. }
    split; [|split; [eauto | done]].
    intros ? [= <-]. exists n.
    split; [by apply main_invariant_reached | done].
  - destruct Hloop as [[n Hreach] He]. split; [|split].
    + intros ? [= <-]. exists n. split; [done | by intros [|]].
    + by intros [|].
    + by intros ? [= <-].
Qed.

(** X11. The counter of [main] is the counter of a run. However [main]
    ends, with n the number of frames it has read: the capture has the
    rest of the frames left, and the counter is the one that [run] gives
    on a fresh counter with the default fraction, fed the detections of
    the first n frames with the one frame height read from the capture
    before the loop; when [main] has not raised, that run returns. *)
Theorem main_counts_are_a_run (v : video) (keys : list Z) (H : Z) :
  int_of_float (prop_frame_height v) = inr H →
  let r := main v keys in
  ∃ n : nat,
    ms_frame_count r.1 = Z.of_nat n ∧
    (n ≤ length (video_frames v))%nat ∧
    ms_frames_left r.1 = drop n (video_frames v) ∧
    ms_counter r.1 =
      (run (__init__ LINE_POSITION)
         (fed_frame H <$> take n (video_frames v))).1 ∧
    (r.2 = Finished ∨ r.2 = StillLooping →
     run (__init__ LINE_POSITION) (fed_frame H <$> take n (video_frames v))
       = (ms_counter r.1, Returned)).
Proof.
  intros HH. cbn zeta.
  destruct (main_spec v keys) as (Hreach & _ & _). cbn zeta in Hreach.
  destruct (Hreach H HH) as (n & (? & ? & ? & ?) & Hinv).
  exists n. repeat split; try done.
  intros Hst. by destruct (Hinv Hst) as (_ & _ & _ & ? & _).
Qed.

(** X12. The progress lines of [main]. When [main] has not raised and has
    read n frames, it has printed one progress line for each multiple of
    30 up to n, in order, and the line for 30 k gives the totals of the run
    over the first 30 k frames and their difference. *)
Theorem main_progress_lines (v : video) (keys : list Z) :
  let r := main v keys in
  r.2 = Finished ∨ r.2 = StillLooping →
  ∃ (H : Z) (n : nat),
    int_of_float (prop_frame_height v) = inr H ∧
    ms_frame_count r.1 = Z.of_nat n ∧
    progress_lines (ms_output r.1) =
      progress_line H (video_frames v) <$> seq 1 (n / 30).
Proof.
  cbn zeta. intros Hst.
  destruct (main_spec v keys) as (Hreach & HH & _). cbn zeta in *.
  destruct (HH Hst) as [H EH].
  destruct (Hreach H EH) as (n & _ & Hinv).
  destruct (Hinv Hst) as (? & _ & _ & _ & ?). by exists H, n.
Qed.

(** X13. [main] raises nothing but [OverflowError] or [ValueError], from
    [int()] on a property, a box coordinate or a line position that is not
    finite: no detection that it builds itself lacks a key. *)
Theorem main_raises_only_conversion_errors (v : video) (keys : list Z)
    (e : exn) :
  (main v keys).2 = MainRaised e → e = OverflowError ∨ e = ValueError.
Proof. destruct (main_spec v keys) as (_ & _ & He). apply He. Qed.

Lemma main_iteration_paused H s key :
  ms_paused s = true → other_key key → main_iteration H s key = (s, Looping).
Proof.
  intros Hp Hkey. unfold main_iteration, process_frame. rewrite Hp.
  destruct (handle_key_cases s key) as [[E _]|[[E _]|[_ ->]]]; [| |done].
  - by destruct Hkey.
  - by destruct Hkey.
Qed.

(** X14. While [main] is paused, a key other than ESC and SPACE does
    nothing: no frame is read and the state stays as it is, so the loop
    goes on with the keys after them as if they had not been pressed. *)
Theorem paused_ignores_other_keys (H : Z) (s : main_state)
    (keys rest : list Z) :
  ms_paused s = true →
  Forall other_key keys →
  main_loop H s (keys ++ rest) = main_loop H s rest.
Proof.
  intros Hp Hkeys. induction Hkeys as [|key keys Hkey _ IH]; [done|].
  cbn [app main_loop]. by rewrite main_iteration_paused.
Qed.

Lemma process_frame_sane H s f rest :
  - 2 ^ 53 < H < 2 ^ 53 →
  ms_paused s = false →
  line_position (ms_counter s) = LINE_POSITION →
  ms_frames_left s = f :: rest →
  frame_sane f →
  ∃ s', process_frame H s = (s', Looping) ∧
    ms_paused s' = false ∧
    line_position (ms_counter s') = LINE_POSITION ∧
    ms_frames_left s' = rest ∧
    ms_frame_count s' = ms_frame_count s + 1.
Proof.
  intros HH Hp Hlp Hfl [Hshape [ds Hds]]. unfold process_frame.
  rewrite Hp, Hfl, Hds.
  pose proof (counting_line_y_default H HH) as Hline.
  pose proof (update_counts_line_position (ms_counter s)
                (to_detection <$> ds) H) as Hlp1.
  assert (Hret : (update_counts (ms_counter s) (to_detection <$> ds) H).2
                 = Returned).
  { unfold update_counts. rewrite Hlp, Hline.
    apply update_counts_loop_returns, to_detection_well_formed. }
  destruct (update_counts (ms_counter s) (to_detection <$> ds) H)
    as [c1 o]. cbn [fst snd] in *. subst o.
  destruct (draw_visualizations_cases c1 (frame_shape f) ds)
    as (Hstate & Hok).
  rewrite Hlp1, Hlp, (counting_line_y_default _ Hshape) in Hok.
  destruct (draw_visualizations c1 (frame_shape f) ds) as [c2 [e|cmds]];
    cbn [fst snd] in *; [by destruct Hok|]. subst c2.
  eexists. split; [reflexivity|].
  cbn [ms_paused ms_counter ms_frames_left ms_frame_count].
  repeat split; try done. by rewrite Hlp1.
Qed.

Lemma main_loop_completes H keys s :
  - 2 ^ 53 < H < 2 ^ 53 →
  ms_paused s = false →
  line_position (ms_counter s) = LINE_POSITION →
  Forall frame_sane (ms_frames_left s) →
  Forall other_key keys →
  (length (ms_frames_left s) < length keys)%nat →
  ∃ s', main_loop H s keys = (s', Broke) ∧
    ms_frames_left s' = [] ∧
    ms_frame_count s' =
      ms_frame_count s + Z.of_nat (length (ms_frames_left s)).
Proof.
  intros HH. revert s.
  induction keys as [|key keys IH]; intros s Hp Hlp Hsane Hkeys Hlen;
    [cbn in Hlen; lia|].
  apply Forall_cons in Hkeys as [Hkey Hkeys].
  cbn [main_loop]. unfold main_iteration.
  destruct (ms_frames_left s) as [|f rest] eqn:Hfl.
  - unfold process_frame. rewrite Hp, Hfl.
    eexists. split; [reflexivity|]. cbn. split; [done | lia].
  - apply Forall_cons in Hsane as [Hf Hrest].
    destruct (process_frame_sane H s f rest HH Hp Hlp Hfl Hf)
      as (s1 & -> & Hp1 & Hlp1 & Hfl1 & Hc1).
    destruct (handle_key_cases s1 key) as [[E _]|[[E _]|[_ ->]]];
      [by destruct Hkey | by destruct Hkey |].
    destruct (IH s1 Hp1 Hlp1) as (s' & -> & Hfl' & Hc');
      [by rewrite Hfl1 | done | rewrite Hfl1; cbn in Hlen; lia |].
    exists s'. split; [done|]. split; [done|].
    rewrite Hc', Hc1, Hfl1. cbn [length]. lia.
Qed.

(** X15. [main] goes through a whole video. When the capture opened, its
    three properties are finite with a frame height below 2^53, every
    frame has a height below 2^53 and boxes for which [detect_and_track]
    returns, and no key is ESC or SPACE (with more keys than frames):
    [main] finishes, it has read every frame, its counter is that of the
    run over all the frames, and the last thing it prints are the final
    totals, their difference and the number of frames. *)
Theorem main_finishes_video (v : video) (keys : list Z) (fps w H : Z) :
  is_opened v = true →
  int_of_float (prop_fps v) = inr fps →
  int_of_float (prop_frame_width v) = inr w →
  int_of_float (prop_frame_height v) = inr H →
  - 2 ^ 53 < H < 2 ^ 53 →
  Forall frame_sane (video_frames v) →
  Forall other_key keys →
  (length (video_frames v) < length keys)%nat →
  let r := main v keys in
  let c := ms_counter r.1 in
  r.2 = Finished ∧
  ms_frame_count r.1 = Z.of_nat (length (video_frames v)) ∧
  ms_frames_left r.1 = [] ∧
  run (__init__ LINE_POSITION) (fed_frame H <$> video_frames v)
    = (c, Returned) ∧
  last (ms_output r.1) =
    Some (print_final (entry_count c) (exit_count c)
            (entry_count c - exit_count c)
            (Z.of_nat (length (video_frames v)))).
Proof.
  intros Hopen Hfps Hw HH Hbound Hsane Hkeys Hlen.
  destruct (main_spec v keys) as (Hrun & _ & _).
  specialize (Hrun H HH).
  cbn zeta in *. unfold main in *. cbv zeta in *.
  rewrite Hopen, Hfps, Hw, HH in *. cbn [negb] in *.
  destruct (main_loop_completes H keys
              (mkMain (__init__ LINE_POSITION) (video_frames v) 0 false
                 [print_video_loaded w H fps; print_processing]))
    as (s & Hloop & Hleft & Hcount); try done.
  rewrite Hloop in *. cbn [fst snd ms_frame_count ms_frames_left ms_counter
                           ms_output] in *.
  destruct Hrun as (n & _ & Hinv).
  destruct (Hinv (or_introl eq_refl)) as (Hn & _ & _ & Hret & _).
  cbn [ms_frame_count ms_counter] in Hn, Hret.
  assert (n = length (video_frames v)) as -> by lia.
  rewrite firstn_all in Hret.
  split; [done|]. split; [lia|]. split; [done|]. split; [done|].
  rewrite last_snoc. do 2 f_equal. lia.
Qed.

(** * The further properties on sample runs *)

Example sample_video_result :
  let r := main sample_video sample_keys in
  r.2 = Finished ∧ ms_frame_count r.1 = 31 ∧
  entry_count (ms_counter r.1) = 1 ∧ exit_count (ms_counter r.1) = 0 ∧
  progress_lines (ms_output r.1) = [(30, 1, 0, 1)].
Proof. vm_compute. repeat split. Qed.

Lemma stored_state_invariant_witness :
  let c := feed (__init__ LINE_POSITION)
             (sample_frame <$> [(0, 90); (0, 110); (0, 130)]) in
  7 ∈ counted_ids c ∧ (2 ≤ length (history c 7))%nat ∧
  track_history c !! 7 = Some [(0, 90); (0, 110); (0, 130)] ∧
  (1 ≤ 3 ≤ TRACK_HISTORY_LENGTH)%nat.
Proof.
  intros c.
  assert (Hin : 7 ∈ counted_ids c) by (vm_compute; reflexivity).
  assert (Hh : track_history c !! 7 = Some [(0, 90); (0, 110); (0, 130)])
    by (vm_compute; reflexivity).
  destruct (stored_state_invariant LINE_POSITION
              (sample_frame <$> [(0, 90); (0, 110); (0, 130)]))
    as (Hlen & Hcounted & _).
  split; [exact Hin|]. split; [exact (Hcounted 7 Hin)|].
  split; [exact Hh | exact (Hlen 7 _ Hh)].
Defined.

Lemma other_tracks_untouched_witness :
  let c := sample_crossed in
  (8 ∉ track_ids [mk_det 7 (0, 0)]) ∧
  track_history (update_counts c [mk_det 7 (0, 0)] 200).1 !! 8
    = track_history c !! 8.
Proof.
  intros c.
  assert (Hnot : 8 ∉ track_ids [mk_det 7 (0, 0)])
    by (apply (bool_decide_unpack _); vm_compute; exact I).
  split; [exact Hnot|].
  exact (proj1 (other_tracks_untouched c [mk_det 7 (0, 0)] 200 8 Hnot)).
Defined.

Lemma frame_order_irrelevant_witness :
  let a := mk_det 7 (0, 150) in
  let b := mk_det 8 (3, 20) in
  [a; b] ≡ₚ [b; a] ∧ Forall well_formed [a; b] ∧ NoDup (track_ids [a; b]) ∧
  update_counts sample_crossed [a; b] 200 =
    update_counts sample_crossed [b; a] 200.
Proof.
  intros a b.
  assert (Hperm : [a; b] ≡ₚ [b; a]) by apply perm_swap.
  assert (Hwf : Forall well_formed [a; b])
    by (repeat constructor; by eexists).
  assert (Hnd : NoDup (track_ids [a; b]))
    by (apply (bool_decide_unpack _); vm_compute; exact I).
  split; [exact Hperm|]. split; [exact Hwf|]. split; [exact Hnd|].
  exact (frame_order_irrelevant sample_crossed [a; b] [b; a] 200
           Hperm Hwf Hnd).
Defined.

Lemma one_sided_track_not_counted_witness :
  let c := __init__ LINE_POSITION in
  let frames := sample_frame <$> [(0, 20); (0, 99); (0, 50)] in
  Forall (λ f : frame, counting_line_y (line_position c) f.2 = inr 100)
    frames ∧
  (7 ∉ counted_ids c) ∧
  Forall (λ p : position, p.2 < 100) (history c 7 ++ observations 7 frames) ∧
  7 ∉ counted_ids (feed c frames).
Proof.
  intros c frames.
  assert (Hline : Forall (λ f : frame,
                    counting_line_y (line_position c) f.2 = inr 100) frames)
    by (repeat constructor).
  assert (Hnew : 7 ∉ counted_ids c) by (vm_compute; discriminate).
  assert (Hside : Forall (λ p : position, p.2 < 100)
                    (history c 7 ++ observations 7 frames))
    by (repeat constructor).
  split; [exact Hline|]. split; [exact Hnew|]. split; [exact Hside|].
  exact (one_sided_track_not_counted c frames 100 7 Hline Hnew
           (or_introl Hside)).
Defined.

Lemma detect_and_track_follows_tracker_witness :
  ∃ ds, detect_and_track (sample_boxes 200) = inr ds ∧
    length ds = 1%nat ∧ td_track_id <$> ds = [7] ∧
    td_centroid <$> ds = [(110, 200)] ∧
    td_bbox <$> ds = [(100, 190, 120, 210)].
Proof.
  destruct (detect_and_track (sample_boxes 200)) as [e|ds] eqn:Hds;
    [vm_compute in Hds; discriminate|].
  exists ds.
  destruct (detect_and_track_follows_tracker (sample_boxes 200))
    as [Hfollow _].
  destruct (Hfollow ds Hds) as (Hlen & Hids & _).
  split; [reflexivity|]. split; [exact Hlen|].
  split; [rewrite Hids, Hlen; reflexivity|].
  vm_compute in Hds. injection Hds as <-. split; reflexivity.
Defined.

Lemma update_counts_accepts_detections_witness :
  let c := __init__ LINE_POSITION in
  ∃ ds, detect_and_track (sample_boxes 200) = inr ds ∧
    counting_line_y (line_position c) 480 = inr 240 ∧
    (update_counts c (to_detection <$> ds) 480).2 = Returned ∧
    7 ∈ dom (track_history (update_counts c (to_detection <$> ds) 480).1).
Proof.
  intros c.
  destruct (detect_and_track (sample_boxes 200)) as [e|ds] eqn:Hds;
    [vm_compute in Hds; discriminate|].
  exists ds.
  assert (Hline : counting_line_y (line_position c) 480 = inr 240)
    by (vm_compute; reflexivity).
  destruct (update_counts_accepts_detections c (sample_boxes 200) ds 480 240
              Hds Hline) as [Hret Hstored].
  split; [reflexivity|]. split; [exact Hline|]. split; [exact Hret|].
  apply (Hstored [7] 7 eq_refl). vm_compute. apply list_elem_of_here.
Defined.

Lemma draw_visualizations_reads_only_witness :
  let c := sample_crossed in
  let d := mkTracked (100, 120, 120, 140) (110, 130) 7
             (float32_of_int 1) in
  counting_line_y (line_position c) (480, 640).1 = inr 240 ∧
  (draw_visualizations c (480, 640) [d]).1 = c ∧
  (draw_visualizations c (480, 640) [d]).2 =
    inr [cv2_line (0, 240) (640, 240) (0, 255, 255);
         cv2_putText text_counting_line (10, 230) (0, 255, 255);
         cv2_rectangle (100, 120) (120, 140) (0, 255, 0);
         cv2_putText (text_id 7) (100, 110) (0, 255, 0);
         cv2_circle (110, 130) 4 (0, 255, 0);
         cv2_polylines [(0, 20); (0, 50); (0, 90); (0, 110); (0, 130)]
                       (0, 255, 0)].
Proof.
  intros c d.
  assert (Hline : counting_line_y (line_position c) (480, 640).1 = inr 240)
    by (vm_compute; reflexivity).
  destruct (draw_visualizations_reads_only c (480, 640) [d])
    as (Hstate & Hcmds & _).
  split; [exact Hline|]. split; [exact Hstate|].
  rewrite (Hcmds 240 Hline). vm_compute. reflexivity.
Defined.

Lemma frame_drawn_after_update_witness :
  let c := (run (__init__ LINE_POSITION) [sample_frame (0, 90)]).1 in
  let d := mkTracked (100, 100, 120, 120) (110, 110) 7
             (float32_of_int 1) in
  let c' := (update_counts c (to_detection <$> [d]) 200).1 in
  counting_line_y (line_position c) 200 = inr 100 ∧
  NoDup (td_track_id <$> [d]) ∧ d ∈ [d] ∧
  history c' 7 = [(0, 90)] ++ [(110, 110)] ∧
  cv2_polylines ([(0, 90)] ++ [(110, 110)]) (0, 255, 0)
    ∈ (draw_detection c' d).2.
Proof.
  intros c d c'.
  assert (Hline : counting_line_y (line_position c) 200 = inr 100)
    by (vm_compute; reflexivity).
  assert (Hnd : NoDup (td_track_id <$> [d]))
    by (apply (bool_decide_unpack _); vm_compute; exact I).
  assert (Hd : d ∈ [d]) by apply list_elem_of_here.
  destruct (frame_drawn_after_update c [d] 200 100 d Hline Hnd Hd)
    as (pre & Hh & _ & Hpoly).
  fold c' in Hh, Hpoly.
  assert (Hpre : pre = [(0, 90)]).
  { assert (E : history c' 7 = [(0, 90)] ++ [(110, 110)])
      by (vm_compute; reflexivity).
    change (td_track_id d) with 7 in Hh. rewrite E in Hh.
    by apply app_inj_tail in Hh as [<- _]. }
  subst pre. split; [exact Hline|]. split; [exact Hnd|]. split; [exact Hd|].
  split; [exact Hh|]. exact (Hpoly ltac:(discriminate)).
Defined.

Lemma main_counts_are_a_run_witness :
  let r := main sample_video sample_keys in
  int_of_float (prop_frame_height sample_video) = inr 480 ∧
  ∃ n : nat,
    ms_frame_count r.1 = Z.of_nat n ∧
    ms_counter r.1 =
      (run (__init__ LINE_POSITION)
         (fed_frame 480 <$> take n (video_frames sample_video))).1.
Proof.
  intros r.
  assert (HH : int_of_float (prop_frame_height sample_video) = inr 480)
    by (vm_compute; reflexivity).
  destruct (main_counts_are_a_run sample_video sample_keys 480 HH)
    as (n & Hn & _ & _ & Hc & _).
  split; [exact HH|]. exists n. split; [exact Hn | exact Hc].
Defined.

Lemma main_progress_lines_witness :
  let r := main sample_video sample_keys in
  r.2 = Finished ∧
  ∃ (H : Z) (n : nat),
    int_of_float (prop_frame_height sample_video) = inr H ∧
    ms_frame_count r.1 = Z.of_nat n ∧
    progress_lines (ms_output r.1) =
      progress_line H (video_frames sample_video) <$> seq 1 (n / 30).
Proof.
  intros r.
  assert (Hst : r.2 = Finished) by (vm_compute; reflexivity).
  split; [exact Hst|].
  exact (main_progress_lines sample_video sample_keys (or_introl Hst)).
Defined.

Lemma main_raises_only_conversion_errors_witness :
  let v := mkVideo true S754_nan (float64_of_int 640) (float64_of_int 480)
             sample_video_frames in
  (main v sample_keys).2 = MainRaised ValueError ∧
  (ValueError = OverflowError ∨ ValueError = ValueError).
Proof.
  intros v.
  assert (Hst : (main v sample_keys).2 = MainRaised ValueError)
    by (vm_compute; reflexivity).
  split; [exact Hst|].
  exact (main_raises_only_conversion_errors v sample_keys ValueError Hst).
Defined.

Lemma paused_ignores_other_keys_witness :
  let s := mkMain sample_crossed sample_video_frames 5 true [] in
  ms_paused s = true ∧ Forall other_key [-1; 65; 113] ∧
  main_loop 480 s ([-1; 65; 113] ++ [27]) = main_loop 480 s [27].
Proof.
  intros s.
  assert (Hp : ms_paused s = true) by reflexivity.
  assert (Hkeys : Forall other_key [-1; 65; 113])
    by (repeat constructor; vm_compute; discriminate).
  split; [exact Hp|]. split; [exact Hkeys|].
  exact (paused_ignores_other_keys 480 s [-1; 65; 113] [27] Hp Hkeys).
Defined.

Lemma sample_video_frames_sane : Forall frame_sane sample_video_frames.
Proof.
  unfold sample_video_frames. cbn [fmap list_fmap seq].
  repeat constructor; eexists; vm_compute; reflexivity.
Defined.

Lemma sample_keys_other : Forall other_key sample_keys.
Proof.
  unfold sample_keys. cbn [replicate].
  repeat constructor; vm_compute; discriminate.
Defined.

Lemma main_finishes_video_witness :
  let r := main sample_video sample_keys in
  is_opened sample_video = true ∧
  int_of_float (prop_fps sample_video) = inr 30 ∧
  int_of_float (prop_frame_width sample_video) = inr 640 ∧
  int_of_float (prop_frame_height sample_video) = inr 480 ∧
  - 2 ^ 53 < 480 < 2 ^ 53 ∧
  (length (video_frames sample_video) < length sample_keys)%nat ∧
  r.2 = Finished ∧ ms_frame_count r.1 = 31 ∧
  run (__init__ LINE_POSITION)
    (fed_frame 480 <$> video_frames sample_video)
    = (ms_counter r.1, Returned).
Proof.
  intros r.
  assert (Hopen : is_opened sample_video = true) by reflexivity.
  assert (Hfps : int_of_float (prop_fps sample_video) = inr 30)
    by (vm_compute; reflexivity).
  assert (Hw : int_of_float (prop_frame_width sample_video) = inr 640)
    by (vm_compute; reflexivity).
  assert (HH : int_of_float (prop_frame_height sample_video) = inr 480)
    by (vm_compute; reflexivity).
  assert (Hb : - 2 ^ 53 < 480 < 2 ^ 53) by (vm_compute; split; reflexivity).
  assert (Hlen : (length (video_frames sample_video)
                  < length sample_keys)%nat) by (vm_compute; lia).
  destruct (main_finishes_video sample_video sample_keys 30 640 480
              Hopen Hfps Hw HH Hb sample_video_frames_sane
              sample_keys_other Hlen) as (Hst & Hn & _ & Hrun & _).
  repeat (split; [assumption|]). exact Hrun.
Defined.

(** X16. ESC ends the loop. A key whose low byte is 27 is the last one
    that [main] reads: when the loop is running it still handles the frame
    of that iteration, when it is paused it reads no frame, and in both
    cases the loop is left, by [break] or by an exception, whatever keys
    would follow. *)
Theorem esc_leaves_loop (H : Z) (s : main_state) (key : Z)
    (rest : list Z) :
  Z.land key 255 = 27 →
  main_loop H s (key :: rest) = main_iteration H s key ∧
  (main_iteration H s key).2 ≠ Looping ∧
  (ms_paused s = true → main_iteration H s key = (s, Broke)).
Proof.
  intros Hesc. cbn [main_loop]. unfold main_iteration.
  assert (Hkey : ∀ s1, handle_key s1 key = (s1, Broke)).
  { intros s1.
    destruct (handle_key_cases s1 key) as [[_ ->]|[[E _]|[[E _] _]]];
      [done | lia | done]. }
  split; [|split].
  - destruct (process_frame H s) as [s1 [| |e]]; [|done..].
    by rewrite Hkey.
  - destruct (process_frame H s) as [s1 [| |e]]; [|done..].
    by rewrite Hkey.
  - intros Hp. unfold process_frame. rewrite Hp. apply Hkey.
Qed.

Lemma esc_leaves_loop_witness :
  let s := mkMain sample_crossed sample_video_frames 5 true [] in
  Z.land 283 255 = 27 ∧ ms_paused s = true ∧
  main_loop 480 s (283 :: [32; -1]) = (s, Broke).
Proof.
  intros s.
  assert (Hesc : Z.land 283 255 = 27) by reflexivity.
  assert (Hp : ms_paused s = true) by reflexivity.
  destruct (esc_leaves_loop 480 s 283 [32; -1] Hesc) as (Hloop & _ & Hbroke).
  split; [exact Hesc|]. split; [exact Hp|].
  rewrite Hloop. exact (Hbroke Hp).
Defined.
